(** * The remote context provider of the Gitpod server

    A shallow embedding of
    [components/server/src/workspace/remote-context-provider.ts]
    (class [RemoteContextProvider]) and the properties its description
    states about it.

    Strings stand for their UTF-8 byte sequences.  The only string
    operations of the source, [startsWith("Bearer ")] and
    [substring("Bearer ".length)], cut at an ASCII prefix, where UTF-16 code
    units and UTF-8 bytes coincide, and the digest is taken over the UTF-8
    encoding. *)

From Stdlib Require Import ZArith String Ascii List Lia.
From stdpp Require Import base option list gmap strings.

Import ListNotations.

(** ** [crypto.createHash('sha256')]: SHA-256 (FIPS 180-4) on 32-bit words

    Words are integers in [0, 2^32); every addition wraps around. *)
Module SHA256.
Local Open Scope Z_scope.

Definition w32 (x : Z) : Z := x mod 2 ^ 32.
Definition add32 (x y : Z) : Z := w32 (x + y).
Definition rotr (n x : Z) : Z :=
  Z.lor (Z.shiftr x n) (w32 (Z.shiftl x (32 - n))).
Definition shr (n x : Z) : Z := Z.shiftr x n.

Definition Ch (x y z : Z) : Z :=
  Z.lxor (Z.land x y) (Z.land (Z.lnot x) z).
Definition Maj (x y z : Z) : Z :=
  Z.lxor (Z.lxor (Z.land x y) (Z.land x z)) (Z.land y z).
Definition Sigma0 (x : Z) : Z :=
  Z.lxor (Z.lxor (rotr 2 x) (rotr 13 x)) (rotr 22 x).
Definition Sigma1 (x : Z) : Z :=
  Z.lxor (Z.lxor (rotr 6 x) (rotr 11 x)) (rotr 25 x).
Definition sigma0 (x : Z) : Z :=
  Z.lxor (Z.lxor (rotr 7 x) (rotr 18 x)) (shr 3 x).
Definition sigma1 (x : Z) : Z :=
  Z.lxor (Z.lxor (rotr 17 x) (rotr 19 x)) (shr 10 x).

(** The first 64 primes. *)
Definition is_prime (n : Z) : bool :=
  forallb (fun d => negb (n mod d =? 0)) (seqZ 2 (n - 2)).
Definition primes : list Z :=
  Eval vm_compute in filter (fun n => is_prime n = true) (seqZ 2 310).

(** The integer cube root, one bit at a time from bit [b] down. *)
Fixpoint cbrt_bits (b : nat) (n r : Z) : Z :=
  match b with
  | O => r
  | S b' =>
      let c := r + 2 ^ Z.of_nat b' in
      cbrt_bits b' n (if c * c * c <=? n then c else r)
  end.
Definition cbrt (n : Z) : Z := cbrt_bits 36 n 0.

(** The round constants: the first 32 bits of the fractional parts of the
    cube roots of the first 64 primes. *)
Definition K : list Z :=
  Eval vm_compute in map (fun p => w32 (cbrt (p * 2 ^ 96))) primes.

(** The initial hash value: the first 32 bits of the fractional parts of
    the square roots of the first 8 primes. *)
Definition H0 : list Z :=
  Eval vm_compute in map (fun p => w32 (Z.sqrt (p * 2 ^ 64))) (take 8 primes).

(** The eight bytes of a 64-bit length, most significant first. *)
Definition be64 (n : Z) : list Z :=
  map (fun i => Z.land (Z.shiftr n (8 * i)) 0xff) [7; 6; 5; 4; 3; 2; 1; 0].

(** Padding: a 1 bit, zeros up to 56 modulo 64 bytes, the bit length. *)
Definition pad (msg : list Z) : list Z :=
  let len := Z.of_nat (length msg) in
  msg ++ [0x80] ++ repeat 0 (Z.to_nat ((55 - len) mod 64)) ++ be64 (8 * len).

Fixpoint words_be (bs : list Z) : list Z :=
  match bs with
  | a :: b :: c :: d :: rest =>
      Z.lor (Z.lor (Z.shiftl a 24) (Z.shiftl b 16)) (Z.lor (Z.shiftl c 8) d)
      :: words_be rest
  | _ => []
  end.

Definition word_at (w : list Z) (i : nat) : Z := nth i w 0.

(** The message schedule: [n] more words after the ones in [w]. *)
Fixpoint schedule (n : nat) (w : list Z) : list Z :=
  match n with
  | O => w
  | S n' =>
      let t := length w in
      let x := add32 (add32 (sigma1 (word_at w (t - 2))) (word_at w (t - 7)))
                     (add32 (sigma0 (word_at w (t - 15))) (word_at w (t - 16))) in
      schedule n' (w ++ [x])
  end.

Definition round (s : list Z) (kw : Z * Z) : list Z :=
  match s with
  | [a; b; c; d; e; f; g; h] =>
      let t1 := add32 (add32 (add32 h (Sigma1 e)) (add32 (Ch e f g) (fst kw)))
                      (snd kw) in
      let t2 := add32 (Sigma0 a) (Maj a b c) in
      [add32 t1 t2; a; b; c; add32 d t1; e; f; g]
  | _ => s
  end.

Definition compress (h : list Z) (block : list Z) : list Z :=
  let w := schedule 48 block in
  let s := fold_left round (combine K w) h in
  map (fun p => add32 (fst p) (snd p)) (combine h s).

(** One 16-word block at a time; [fuel] bounds the number of blocks. *)
Fixpoint process (fuel : nat) (ws : list Z) (h : list Z) : list Z :=
  match fuel, ws with
  | S fuel', _ :: _ => process fuel' (drop 16 ws) (compress h (take 16 ws))
  | _, _ => h
  end.

Definition digest_words (msg : list Z) : list Z :=
  let ws := words_be (pad msg) in
  process (length ws) ws H0.

Definition hex_digit (d : Z) : ascii :=
  ascii_of_nat (Z.to_nat (if d <? 10 then 48 + d else 87 + d)).

Fixpoint hex_of_nibbles (ds : list Z) : string :=
  match ds with
  | [] => EmptyString
  | d :: ds' => String (hex_digit d) (hex_of_nibbles ds')
  end.

Definition nibbles (w : Z) : list Z :=
  map (fun i => Z.land (Z.shiftr w (4 * i)) 0xf) [7; 6; 5; 4; 3; 2; 1; 0].

Definition bytes_of_string (s : string) : list Z :=
  map (fun c => Z.of_nat (nat_of_ascii c)) (list_ascii_of_string s).

(** [createHash('sha256').update(s, 'utf8').digest('hex')]: 64 lower-case
    hexadecimal digits. *)
Definition hex (s : string) : string :=
  hex_of_nibbles (concat (map nibbles (digest_words (bytes_of_string s)))).

End SHA256.

(** ** Data model *)

(** Protobuf messages and arrays are JavaScript objects: they are held and
    passed by reference.  A reference is an index into the object store. *)
Definition loc := nat.

(** [Status] of [@grpc/grpc-js]. *)
Module Status.
Definition UNAUTHENTICATED : Z := 16.
End Status.

(** [GitpodTokenType] of the Gitpod protocol. *)
Inductive GitpodTokenType := API_AUTH_TOKEN | MACHINE_AUTH_TOKEN.

(** Modelled from the spec: [EnvVarApplication] is declared in the generated
    [imagespec_pb], which is not among the sources; the description names
    the modes overwrite and append. *)
Inductive EnvVarApplication := OVERWRITE | APPEND.

(** Of the protocol's plain objects only the fields this class reads are
    kept. *)
Module User.
Record t := { id : string }.
End User.

Module GitpodToken.
Record t := { tokenHash : string; type : GitpodTokenType }.
End GitpodToken.

(** What [findUserByGitpodToken] resolves to when a credential matches. *)
Module UserAndToken.
Record t := { user : User.t; token : GitpodToken.t }.
End UserAndToken.

Module Workspace.
Record t := { id : string; ownerId : string }.
End Workspace.

Module WorkspaceInstance.
Record t := { id : string }.
End WorkspaceInstance.

(** [TraceContext]: the carrier handed to the collaborators. *)
Record TraceContext := { span : option string }.

(** An environment variable entry, of the starter's specification or of
    the wire one: name, value and application mode. *)
Module EnvironmentVariable.
Record t := { name : string; value : string; mode : EnvVarApplication }.
End EnvironmentVariable.

(** The start specification built by the workspace starter.  Scalar fields
    are values; message fields ([git], [initializer]) and repeated message
    fields ([envvarsList], [portsList]) are references to a message, or to
    an array of references to messages. *)
Module Internal.
Record StartWorkspaceSpec := {
    admission : Z;
    checkoutLocation : string;
    envvarsList : loc;
    git : option loc;
    ideImage : string;
    initializer : option loc;
    portsList : loc;
    timeout : string;
    workspaceImage : string;
    workspaceLocation : string
  }.
End Internal.

(** The start specification of the response: [new StartWorkspaceSpec()]
    followed by its ten setters. *)
Module Wire.
Record StartWorkspaceSpec := {
    admission : Z;
    checkoutLocation : string;
    envvarsList : loc;
    git : option loc;
    ideImage : string;
    initializer : option loc;
    portsList : loc;
    timeout : string;
    workspaceImage : string;
    workspaceLocation : string
  }.
End Wire.

(** The value of a specification with every reference followed, as the
    generated [toObject()] gives it. *)
Module AsObject.
Record t {Msg : Type} := {
    admission : Z;
    checkoutLocation : string;
    envvarsList : list EnvironmentVariable.t;
    git : option Msg;
    ideImage : string;
    initializer : option Msg;
    portsList : list Msg;
    timeout : string;
    workspaceImage : string;
    workspaceLocation : string
  }.
Arguments t : clear implicits.
End AsObject.

Module WorkspaceMetadata.
Record t := { metaId : string; owner : string }.
End WorkspaceMetadata.

Module GetWorkspaceContextResponse.
Record t := {
    id : string;
    metadata : WorkspaceMetadata.t;
    servicePrefix : string;
    spec : Wire.StartWorkspaceSpec
  }.
End GetWorkspaceContextResponse.

Module GetWorkspaceContextRequest.
Record t := { contextUrl : string }.
End GetWorkspaceContextRequest.

(** [Metadata] of grpc-js: its internal map, header name to value list.
    The class folds the case of a key wherever it takes one, so the map is
    keyed by lower-case names, and [get] looks its key up folded.  The values
    under a key that is not binary are strings, on which [toString()] is the
    identity. *)
Module Metadata.
(** [key.toLowerCase()], on the ASCII letters a header name has. *)
Definition lower (c : ascii) : ascii :=
  let n := nat_of_ascii c in
  if (65 <=? n)%nat && (n <=? 90)%nat then ascii_of_nat (n + 32) else c.
Fixpoint normalizeKey (key : string) : string :=
  match key with
  | EmptyString => EmptyString
  | String c key' => String (lower c) (normalizeKey key')
  end.
(** [metadata.get(key)]: the values under the folded key, [[]] when there
    is no entry. *)
Definition get (key : string) (m : gmap string (list string)) : list string :=
  default [] (m !! normalizeKey key).
End Metadata.

Module ServerUnaryCall.
Record t := {
    metadata : gmap string (list string);
    request : GetWorkspaceContextRequest.t
  }.
End ServerUnaryCall.

(** What [console.log({auth})] is given. *)
Record LogObject := { auth : list string }.

(** Values thrown, or promises rejected with. *)
Inductive Thrown :=
| StatusObject (code : Z)        (* the object literal [{ code }] *)
| TypeError                      (* a method call on something else *)
| Upstream (description : string). (* whatever a collaborator throws *)

Inductive Outcome (A : Type) :=
| Resolved (a : A)
| Rejected (e : Thrown).
Arguments Resolved {A} a.
Arguments Rejected {A} e.

(** [String.prototype.startsWith] and one-argument
    [String.prototype.substring]. *)
Definition startsWith (s searchString : string) : bool :=
  String.prefix searchString s.
Definition substring (s : string) (start : nat) : string :=
  String.substring start (String.length s - start) s.

(** ** The program *)

Section Provider.

(** What this class passes through without looking inside: the content of
    a sub-message of the specification (source-control info, initializer, a
    port entry), the resolved context, a stored environment variable of the
    user; and the state of the collaborators. *)
Context {Msg WorkspaceContext UserEnvVar World : Type}.

(** The objects of the store. *)
Inductive Obj :=
| OMessage (content : Msg)
| OEnvVar (e : EnvironmentVariable.t)
| OArray (elems : list loc).

Record State := { heap : list Obj; world : World }.

(** The calls to the injected collaborators ([userDB], [contextParser],
    [workspaceFactory], [workspaceStarter]), indexed by what they resolve
    to. *)
Inductive Call : Type -> Type :=
| userDB_findUserByGitpodToken (ctx : TraceContext) (tokenHash : string)
    (tokenType : GitpodTokenType) : Call (option UserAndToken.t)
| userDB_getEnvVars (ctx : TraceContext) (userId : string)
    : Call (list UserEnvVar)
| contextParser_normalizeContextURL (contextURL : string) : Call string
| contextParser_handle (ctx : TraceContext) (user : User.t)
    (contextURL : string) : Call WorkspaceContext
| workspaceFactory_createForContext (ctx : TraceContext) (user : User.t)
    (context : WorkspaceContext) (normalizedContextURL : string)
    : Call Workspace.t
| workspaceStarter_newInstance (workspace : Workspace.t) (user : User.t)
    : Call WorkspaceInstance.t
| workspaceStarter_createSpec (ctx : TraceContext) (user : User.t)
    (workspace : Workspace.t) (instance : WorkspaceInstance.t)
    (envVars : list UserEnvVar) : Call Internal.StartWorkspaceSpec.

(** A computation of the class: it returns, throws, awaits a collaborator,
    writes to the console, creates an object or reads one. *)
Inductive Prog (A : Type) : Type :=
| Ret (a : A)
| Throw (e : Thrown)
| Await {X : Type} (c : Call X) (k : X -> Prog A)
| ConsoleLog (o : LogObject) (k : Prog A)
| New (o : Obj) (k : loc -> Prog A)
| Get (l : loc) (k : Obj -> Prog A).
Arguments Ret {A} a.
Arguments Throw {A} e.
Arguments Await {A X} c k.
Arguments ConsoleLog {A} o k.
Arguments New {A} o k.
Arguments Get {A} l k.

Fixpoint bind {A B : Type} (m : Prog A) (f : A -> Prog B) : Prog B :=
  match m with
  | Ret a => f a
  | Throw e => Throw e
  | Await c k => Await c (fun x => bind (k x) f)
  | ConsoleLog o k => ConsoleLog o (bind k f)
  | New o k => New o (fun l => bind (k l) f)
  | Get l k => Get l (fun o => bind (k o) f)
  end.

Definition await {X : Type} (c : Call X) : Prog X := Await c Ret.
Definition console_log (o : LogObject) : Prog unit := ConsoleLog o (Ret tt).
Definition new (o : Obj) : Prog loc := New o Ret.
Definition get (l : loc) : Prog Obj := Get l Ret.

Notation "'let*' x := m 'in' k" := (bind m (fun x => k))
  (at level 10, x name, m at level 100, k at level 200).
Notation "m ;;; k" := (bind m (fun _ => k))
  (at level 100, k at level 200, right associativity).

(** [array.map(f)]: the callback on each element in order, and the list
    of its results, which the caller puts in a new array. *)
Fixpoint array_map {A B : Type} (f : A -> Prog B) (l : list A) : Prog (list B) :=
  match l with
  | [] => Ret []
  | x :: l' => let* y := f x in let* ys := array_map f l' in Ret (y :: ys)
  end.

(** Lines 73-79, the callback: a new [EnvironmentVariable] with the name and
    the value of [e] and the mode [OVERWRITE].  The object is put in the
    store as its three setters leave it. *)
Definition overwriteEnvVar (e : loc) : Prog loc :=
  let* o := get e in
  match o with
  | OEnvVar ev =>
      new (OEnvVar {| EnvironmentVariable.name := EnvironmentVariable.name ev;
                      EnvironmentVariable.value := EnvironmentVariable.value ev;
                      EnvironmentVariable.mode := OVERWRITE |})
  | _ => Throw TypeError
  end.

(** Lines 70-86: the wire specification from the starter's one.  Getters
    of message fields return the reference held, setters store the
    reference given. *)
Definition translateSpec (originalspec : Internal.StartWorkspaceSpec)
  : Prog Wire.StartWorkspaceSpec :=
  let* envvars := get (Internal.envvarsList originalspec) in
  match envvars with
  | OArray es =>
      let* rs := array_map overwriteEnvVar es in
      let* mapped := new (OArray rs) in
      Ret {| Wire.admission := Internal.admission originalspec;
             Wire.checkoutLocation := Internal.checkoutLocation originalspec;
             Wire.envvarsList := mapped;
             Wire.git := Internal.git originalspec;
             Wire.ideImage := Internal.ideImage originalspec;
             Wire.initializer := Internal.initializer originalspec;
             Wire.portsList := Internal.portsList originalspec;
             Wire.timeout := Internal.timeout originalspec;
             Wire.workspaceImage := Internal.workspaceImage originalspec;
             Wire.workspaceLocation := Internal.workspaceLocation originalspec |}
  | _ => Throw TypeError
  end.

(** Lines 102-123. *)
Definition getUser (ctx : TraceContext) (metadata : gmap string (list string))
  : Prog (option User.t) :=
  let auth := Metadata.get "Authorization" metadata in
  match auth with
  | [] => Ret None
  | auth0 :: _ =>
      console_log {| auth := auth |} ;;;
      let authorizationHeader := auth0 in
      if negb (startsWith authorizationHeader "Bearer ") then Ret None
      else
        let token := substring authorizationHeader (String.length "Bearer ") in
        let hash := SHA256.hex token in
        let* user := await (userDB_findUserByGitpodToken ctx hash
                              MACHINE_AUTH_TOKEN) in
        match user with
        | None => Ret None
        | Some user => Ret (Some (UserAndToken.user user))
        end
  end.

(** Lines 56-100. *)
Definition getWorkspaceContext (call : ServerUnaryCall.t)
  : Prog GetWorkspaceContextResponse.t :=
  let ctx := {| span := None |} in
  let* user := getUser ctx (ServerUnaryCall.metadata call) in
  match user with
  | None => Throw (StatusObject Status.UNAUTHENTICATED)
  | Some user =>
      let* normalizedContextUrl :=
        await (contextParser_normalizeContextURL
                 (GetWorkspaceContextRequest.contextUrl
                    (ServerUnaryCall.request call))) in
      let* context := await (contextParser_handle ctx user normalizedContextUrl) in
      let* workspace :=
        await (workspaceFactory_createForContext ctx user context
                 normalizedContextUrl) in
      let* instance := await (workspaceStarter_newInstance workspace user) in
      let* envVars := await (userDB_getEnvVars ctx (User.id user)) in
      let* originalspec :=
        await (workspaceStarter_createSpec ctx user workspace instance envVars) in
      let* spec := translateSpec originalspec in
      Ret {| GetWorkspaceContextResponse.id := WorkspaceInstance.id instance;
             GetWorkspaceContextResponse.metadata :=
               {| WorkspaceMetadata.metaId := Workspace.id workspace;
                  WorkspaceMetadata.owner := Workspace.ownerId workspace |};
             GetWorkspaceContextResponse.servicePrefix := Workspace.id workspace;
             GetWorkspaceContextResponse.spec := spec |}
  end.

(** ** Running a computation

    The collaborators are arbitrary: each call resolves or rejects and may
    change the store and the collaborators' state. *)
Definition Handler : Type := forall X : Type, Call X -> State -> Outcome X * State.

(** What can be observed of a run from outside. *)
Inductive Event :=
| Logged (o : LogObject)
| Called {X : Type} (c : Call X) (r : Outcome X).

Fixpoint run {A : Type} (h : Handler) (p : Prog A) (s : State)
  : Outcome A * State * list Event :=
  match p with
  | Ret a => (Resolved a, s, [])
  | Throw e => (Rejected e, s, [])
  | Await c k =>
      match h _ c s with
      | (Resolved x, s') =>
          let '(r, s'', t) := run h (k x) s' in (r, s'', Called c (Resolved x) :: t)
      | (Rejected e, s') => (Rejected e, s', [Called c (Rejected e)])
      end
  | ConsoleLog o k =>
      let '(r, s', t) := run h k s in (r, s', Logged o :: t)
  | New o k =>
      run h (k (length (heap s)))
          {| heap := heap s ++ [o]; world := world s |}
  | Get l k =>
      match heap s !! l with
      | Some o => run h (k o) s
      | None => (Rejected TypeError, s, [])
      end
  end.

(** Lines 32-38: the method registered with the transport hands the
    outcome to the callback, [cb(null, r)] or [cb(err)]. *)
Definition server_getWorkspaceContext (h : Handler) (call : ServerUnaryCall.t)
  (s : State) : Outcome GetWorkspaceContextResponse.t :=
  match run h (getWorkspaceContext call) s with
  | (Resolved r, _, _) => Resolved r
  | (Rejected err, _, _) => Rejected err
  end.

(** ** Observations *)

(** The collaborator methods, and the ones invoked in a run, in order. *)
Inductive Method :=
| FindUserByGitpodToken | NormalizeContextURL | Handle | CreateForContext
| NewInstance | GetEnvVars | CreateSpec.

Definition method {X : Type} (c : Call X) : Method :=
  match c with
  | userDB_findUserByGitpodToken _ _ _ => FindUserByGitpodToken
  | userDB_getEnvVars _ _ => GetEnvVars
  | contextParser_normalizeContextURL _ => NormalizeContextURL
  | contextParser_handle _ _ _ => Handle
  | workspaceFactory_createForContext _ _ _ _ => CreateForContext
  | workspaceStarter_newInstance _ _ => NewInstance
  | workspaceStarter_createSpec _ _ _ _ _ => CreateSpec
  end.

Fixpoint invoked (t : list Event) : list Method :=
  match t with
  | [] => []
  | Logged _ :: t' => invoked t'
  | Called c _ :: t' => method c :: invoked t'
  end.

(** What was written to the console. *)
Fixpoint logged (t : list Event) : list LogObject :=
  match t with
  | [] => []
  | Logged o :: t' => o :: logged t'
  | Called _ _ :: t' => logged t'
  end.

(** The call to method [m] was rejected with [e]. *)
Definition rejected_with (m : Method) (e : Thrown) (ev : Event) : Prop :=
  match ev with
  | Called c (Rejected e') => method c = m /\ e' = e
  | _ => False
  end.

(** The sequence of section 4.2 of the description, after the credential
    lookup. *)
Definition orchestration : list Method :=
  [ FindUserByGitpodToken; NormalizeContextURL; Handle; CreateForContext;
    NewInstance; GetEnvVars; CreateSpec ].

(** Reading the store. *)
Definition readMessage (hp : list Obj) (l : loc) : option Msg :=
  match hp !! l with Some (OMessage m) => Some m | _ => None end.
Definition readEnvVar (hp : list Obj) (l : loc) : option EnvironmentVariable.t :=
  match hp !! l with Some (OEnvVar e) => Some e | _ => None end.
Definition readArray (hp : list Obj) (l : loc) : option (list loc) :=
  match hp !! l with Some (OArray ls) => Some ls | _ => None end.
Definition readOptional (hp : list Obj) (f : option loc) : option (option Msg) :=
  match f with
  | None => Some None
  | Some l => Some <$> readMessage hp l
  end.

(** An entry with its mode replaced by [OVERWRITE]. *)
Definition overwritten (e : EnvironmentVariable.t) : EnvironmentVariable.t :=
  {| EnvironmentVariable.name := EnvironmentVariable.name e;
     EnvironmentVariable.value := EnvironmentVariable.value e;
     EnvironmentVariable.mode := OVERWRITE |}.

(** [toObject()] of the two specification classes. *)
Definition Internal_toObject (hp : list Obj) (o : Internal.StartWorkspaceSpec)
  : option (AsObject.t Msg) :=
  es ← readArray hp (Internal.envvarsList o);
  envvars ← mapM (readEnvVar hp) es;
  g ← readOptional hp (Internal.git o);
  i ← readOptional hp (Internal.initializer o);
  ps ← readArray hp (Internal.portsList o);
  ports ← mapM (readMessage hp) ps;
  Some {| AsObject.admission := Internal.admission o;
          AsObject.checkoutLocation := Internal.checkoutLocation o;
          AsObject.envvarsList := envvars;
          AsObject.git := g;
          AsObject.ideImage := Internal.ideImage o;
          AsObject.initializer := i;
          AsObject.portsList := ports;
          AsObject.timeout := Internal.timeout o;
          AsObject.workspaceImage := Internal.workspaceImage o;
          AsObject.workspaceLocation := Internal.workspaceLocation o |}.

Definition Wire_toObject (hp : list Obj) (w : Wire.StartWorkspaceSpec)
  : option (AsObject.t Msg) :=
  es ← readArray hp (Wire.envvarsList w);
  envvars ← mapM (readEnvVar hp) es;
  g ← readOptional hp (Wire.git w);
  i ← readOptional hp (Wire.initializer w);
  ps ← readArray hp (Wire.portsList w);
  ports ← mapM (readMessage hp) ps;
  Some {| AsObject.admission := Wire.admission w;
          AsObject.checkoutLocation := Wire.checkoutLocation w;
          AsObject.envvarsList := envvars;
          AsObject.git := g;
          AsObject.ideImage := Wire.ideImage w;
          AsObject.initializer := i;
          AsObject.portsList := ports;
          AsObject.timeout := Wire.timeout w;
          AsObject.workspaceImage := Wire.workspaceImage w;
          AsObject.workspaceLocation := Wire.workspaceLocation w |}.

(** What the description expects of the wire specification: the value of
    the starter's one with every entry's mode overwritten. *)
Definition expected_wire_object (io : AsObject.t Msg) : AsObject.t Msg :=
  {| AsObject.admission := AsObject.admission io;
     AsObject.checkoutLocation := AsObject.checkoutLocation io;
     AsObject.envvarsList := overwritten <$> AsObject.envvarsList io;
     AsObject.git := AsObject.git io;
     AsObject.ideImage := AsObject.ideImage io;
     AsObject.initializer := AsObject.initializer io;
     AsObject.portsList := AsObject.portsList io;
     AsObject.timeout := AsObject.timeout io;
     AsObject.workspaceImage := AsObject.workspaceImage io;
     AsObject.workspaceLocation := AsObject.workspaceLocation io |}.

(** The objects a specification holds, directly or through its arrays. *)
Definition option_refs (f : option loc) : list loc :=
  match f with Some l => [l] | None => [] end.
Definition array_refs (hp : list Obj) (l : loc) : list loc :=
  l :: default [] (readArray hp l).

Definition Internal_envvar_refs (hp : list Obj) (o : Internal.StartWorkspaceSpec)
  : list loc := array_refs hp (Internal.envvarsList o).
Definition Internal_refs (hp : list Obj) (o : Internal.StartWorkspaceSpec)
  : list loc :=
  Internal_envvar_refs hp o ++ option_refs (Internal.git o)
  ++ option_refs (Internal.initializer o)
  ++ array_refs hp (Internal.portsList o).

Definition Wire_envvar_refs (hp : list Obj) (w : Wire.StartWorkspaceSpec)
  : list loc := array_refs hp (Wire.envvarsList w).
Definition Wire_refs (hp : list Obj) (w : Wire.StartWorkspaceSpec) : list loc :=
  Wire_envvar_refs hp w ++ option_refs (Wire.git w)
  ++ option_refs (Wire.initializer w)
  ++ array_refs hp (Wire.portsList w).

(** The two specifications hold no object in common. *)
Definition share_nothing (hp : list Obj) (o : Internal.StartWorkspaceSpec)
  (w : Wire.StartWorkspaceSpec) : Prop :=
  forall l, In l (Internal_refs hp o) -> ~ In l (Wire_refs hp w).

(** ** The registered method and its callback

    Lines 32-38 as they are chained: [.then(r => cb(null, r))] on the
    promise of [getWorkspaceContext], then [.catch(err => cb(err))] on the
    promise [then] returns.  The callback is the transport's and may throw. *)
Inductive CallbackArgs :=
| cb_response (r : GetWorkspaceContextResponse.t)   (* [cb(null, r)] *)
| cb_error (err : Thrown).                          (* [cb(err)] *)

Definition Callback : Type := CallbackArgs -> State -> Outcome unit * State.

(** A settled promise: its outcome, the state reached, and the invocations
    of the callback so far. *)
Definition Settled (A : Type) : Type := Outcome A * State * list CallbackArgs.

(** [promise.then(onfulfilled)]: a rejection passes through. *)
Definition promise_then {A B : Type} (p : Settled A)
  (onfulfilled : A -> State -> Settled B) : Settled B :=
  match p with
  | (Resolved a, s, l) => let '(r, s', l') := onfulfilled a s in (r, s', l ++ l')
  | (Rejected e, s, l) => (Rejected e, s, l)
  end.

(** [promise.catch(onrejected)]: a fulfilment passes through. *)
Definition promise_catch {A : Type} (p : Settled A)
  (onrejected : Thrown -> State -> Settled A) : Settled A :=
  match p with
  | (Resolved a, s, l) => (Resolved a, s, l)
  | (Rejected e, s, l) => let '(r, s', l') := onrejected e s in (r, s', l ++ l')
  end.

Definition invoke (cb : Callback) (args : CallbackArgs) (s : State) : Settled unit :=
  let '(r, s') := cb args s in (r, s', [args]).

Definition server_getWorkspaceContext_cb (h : Handler) (cb : Callback)
  (call : ServerUnaryCall.t) (s : State) : Settled unit :=
  let '(r, s1, _) := run h (getWorkspaceContext call) s in
  promise_catch
    (promise_then (r, s1, []) (fun r => invoke cb (cb_response r)))
    (fun err => invoke cb (cb_error err)).

(** ** Further observations *)

(** The collaborator calls of a run, without what was written to the
    console. *)
Fixpoint calls (t : list Event) : list Event :=
  match t with
  | [] => []
  | Logged _ :: t' => calls t'
  | ev :: t' => ev :: calls t'
  end.

(** The shape of a hexadecimal SHA-256 digest: 64 characters among
    [0-9a-f]. *)
Definition is_lower_hex (c : ascii) : bool :=
  existsb (Ascii.eqb c) (list_ascii_of_string "0123456789abcdef").
Definition digest_shaped (hash : string) : Prop :=
  String.length hash = 64
  /\ Forall (fun c => is_lower_hex c = true) (list_ascii_of_string hash).

(** A call to the credential store, in a run on the [Authorization]
    values [auth], asks for a machine credential by the digest of the token
    of the first value; any other event passes. *)
Definition lookup_by_digest_of (auth : list string) (ev : Event) : Prop :=
  match ev with
  | Called c _ =>
      match c with
      | userDB_findUserByGitpodToken _ tokenHash tokenType =>
          tokenType = MACHINE_AUTH_TOKEN
          /\ digest_shaped tokenHash
          /\ exists token rest,
               auth = ("Bearer " ++ token)%string :: rest
               /\ tokenHash = SHA256.hex token
      | _ => True
      end
  | Logged _ => True
  end.

(** The environment variables a wire specification reads. *)
Definition Wire_envvars (hp : list Obj) (w : Wire.StartWorkspaceSpec)
  : option (list EnvironmentVariable.t) :=
  es ← readArray hp (Wire.envvarsList w); mapM (readEnvVar hp) es.

End Provider.

Arguments Obj : clear implicits.
Arguments State : clear implicits.
Arguments Call : clear implicits.
Arguments Prog : clear implicits.
Arguments Handler : clear implicits.
Arguments Event : clear implicits.
Arguments Callback : clear implicits.
Arguments Settled : clear implicits.

(** ** A scenario

    The end-to-end scenario of the description: the token ["abc"], whose
    digest belongs to a machine credential of the user [U1]; a context
    resolver that knows the repository; a factory and a starter that return
    the workspace ["ws1"] and the instance ["inst1"], and a specification
    with one environment variable of mode [APPEND]. *)
Module Scenario.

Definition U1 : User.t := {| User.id := "U1" |}.
Definition U2 : User.t := {| User.id := "U2" |}.

Definition credential (token : string) (user : User.t) : UserAndToken.t :=
  {| UserAndToken.user := user;
     UserAndToken.token := {| GitpodToken.tokenHash := SHA256.hex token;
                              GitpodToken.type := MACHINE_AUTH_TOKEN |} |}.

(** The state of the collaborators: the credential store, whether it can
    be reached, and the contexts the resolver knows. *)
Record Collaborators := {
  credentials : list UserAndToken.t;
  reachable : bool;
  contexts : list (string * string)
}.

Definition same_type (a b : GitpodTokenType) : bool :=
  match a, b with
  | API_AUTH_TOKEN, API_AUTH_TOKEN | MACHINE_AUTH_TOKEN, MACHINE_AUTH_TOKEN => true
  | _, _ => false
  end.

(** Modelled from the spec: [findUserByGitpodToken] of the user database
    is not among the sources; it looks a credential up by its digest, within
    one credential kind. *)
Definition findUserByGitpodToken (tokenHash : string) (tokenType : GitpodTokenType)
  (cs : list UserAndToken.t) : option UserAndToken.t :=
  List.find
    (fun c => String.eqb (GitpodToken.tokenHash (UserAndToken.token c)) tokenHash
              && same_type (GitpodToken.type (UserAndToken.token c)) tokenType)
    cs.

(** The objects of the starter's specification, put at the end of a store
    of [n] objects, and the specification that holds them. *)
Definition spec_objects (n : nat) : list (Obj string) :=
  [ OEnvVar {| EnvironmentVariable.name := "FOO";
               EnvironmentVariable.value := "bar";
               EnvironmentVariable.mode := APPEND |};
    OArray [n];
    OMessage "git: U1 <u1@example.com>";
    OMessage "port 3000";
    OArray [n + 3];
    OMessage "initializer: clone https://example.com/repo" ].

Definition spec_at (n : nat) : Internal.StartWorkspaceSpec :=
  {| Internal.admission := 0;
     Internal.checkoutLocation := "repo";
     Internal.envvarsList := n + 1;
     Internal.git := Some (n + 2);
     Internal.ideImage := "ide:latest";
     Internal.initializer := Some (n + 5);
     Internal.portsList := n + 4;
     Internal.timeout := "30m";
     Internal.workspaceImage := "workspace-full";
     Internal.workspaceLocation := "repo" |}.

Definition handler : Handler string string (string * string) Collaborators :=
  fun X c =>
    match c in Call _ _ X return State _ _ -> Outcome X * State _ _ with
    | userDB_findUserByGitpodToken _ tokenHash tokenType => fun s =>
        if reachable (world s)
        then (Resolved (findUserByGitpodToken tokenHash tokenType
                          (credentials (world s))), s)
        else (Rejected (Upstream "credential store unreachable"), s)
    | userDB_getEnvVars _ _ => fun s => (Resolved [("FOO", "bar")], s)
    | contextParser_normalizeContextURL contextURL => fun s =>
        (Resolved contextURL, s)
    | contextParser_handle _ _ contextURL => fun s =>
        match List.find (fun p => String.eqb (fst p) contextURL)
                (contexts (world s)) with
        | Some p => (Resolved (snd p), s)
        | None => (Rejected (Upstream "unknown context"), s)
        end
    | workspaceFactory_createForContext _ user _ _ => fun s =>
        (Resolved {| Workspace.id := "ws1"; Workspace.ownerId := User.id user |},
         s)
    | workspaceStarter_newInstance _ _ => fun s =>
        (Resolved {| WorkspaceInstance.id := "inst1" |}, s)
    | workspaceStarter_createSpec _ _ _ _ _ => fun s =>
        (Resolved (spec_at (length (heap s))),
         {| heap := heap s ++ spec_objects (length (heap s));
            world := world s |})
    end.

Definition collaborators : Collaborators :=
  {| credentials := [credential "abc" U1];
     reachable := true;
     contexts := [("https://example.com/repo", "C")] |}.

(** Before the call; with an unreachable credential store; with a
    credential whose token is the empty string; after the starter built its
    specification. *)
Definition s0 : State string Collaborators :=
  {| heap := []; world := collaborators |}.
Definition s_unreachable : State string Collaborators :=
  {| heap := [];
     world := {| credentials := credentials collaborators;
                 reachable := false;
                 contexts := contexts collaborators |} |}.
Definition s_blank : State string Collaborators :=
  {| heap := [];
     world := {| credentials := [credential "abc" U1; credential "" U2];
                 reachable := true;
                 contexts := contexts collaborators |} |}.
Definition s1 : State string Collaborators :=
  {| heap := spec_objects 0; world := collaborators |}.

Definition originalspec : Internal.StartWorkspaceSpec := spec_at 0.

Definition original_object : AsObject.t string :=
  {| AsObject.admission := 0;
     AsObject.checkoutLocation := "repo";
     AsObject.envvarsList :=
       [ {| EnvironmentVariable.name := "FOO";
            EnvironmentVariable.value := "bar";
            EnvironmentVariable.mode := APPEND |} ];
     AsObject.git := Some "git: U1 <u1@example.com>";
     AsObject.ideImage := "ide:latest";
     AsObject.initializer := Some "initializer: clone https://example.com/repo";
     AsObject.portsList := ["port 3000"];
     AsObject.timeout := "30m";
     AsObject.workspaceImage := "workspace-full";
     AsObject.workspaceLocation := "repo" |}.

(** The metadata of a request that carried the values [auth] under
    [Authorization], as the transport stores them. *)
Definition metadata (auth : list string) : gmap string (list string) :=
  {[ "authorization" := auth ]}.

Definition call (auth : list string) (contextUrl : string) : ServerUnaryCall.t :=
  {| ServerUnaryCall.metadata := metadata auth;
     ServerUnaryCall.request :=
       {| GetWorkspaceContextRequest.contextUrl := contextUrl |} |}.

(** A request with no metadata at all. *)
Definition call_without_metadata : ServerUnaryCall.t :=
  {| ServerUnaryCall.metadata := ∅;
     ServerUnaryCall.request :=
       {| GetWorkspaceContextRequest.contextUrl := "https://example.com/repo" |} |}.

Definition ctx : TraceContext := {| span := None |}.

(** Two callbacks of the transport: one that takes what it is given, one
    whose stream is gone when the response arrives. *)
Definition cb_accepts : Callback string Collaborators :=
  fun _ s => (Resolved tt, s).
Definition cb_stream_closed : Callback string Collaborators :=
  fun args s =>
    match args with
    | cb_response _ => (Rejected (Upstream "stream closed"), s)
    | cb_error _ => (Resolved tt, s)
    end.

(** The three requests of the description's scenarios, run. *)
Definition success :=
  run handler (getWorkspaceContext (call ["Bearer abc"] "https://example.com/repo"))
      s0.
Definition unknown_context :=
  run handler (getWorkspaceContext (call ["Bearer abc"] "https://example.com/other"))
      s0.
Definition store_unreachable :=
  run handler (getWorkspaceContext (call ["Bearer abc"] "https://example.com/repo"))
      s_unreachable.

Definition response : GetWorkspaceContextResponse.t :=
  {| GetWorkspaceContextResponse.id := "inst1";
     GetWorkspaceContextResponse.metadata :=
       {| WorkspaceMetadata.metaId := "ws1"; WorkspaceMetadata.owner := "U1" |};
     GetWorkspaceContextResponse.servicePrefix := "ws1";
     GetWorkspaceContextResponse.spec :=
       {| Wire.admission := 0;
          Wire.checkoutLocation := "repo";
          Wire.envvarsList := 7;
          Wire.git := Some 2;
          Wire.ideImage := "ide:latest";
          Wire.initializer := Some 5;
          Wire.portsList := 4;
          Wire.timeout := "30m";
          Wire.workspaceImage := "workspace-full";
          Wire.workspaceLocation := "repo" |} |}.

End Scenario.

(** * Properties *)

Section Properties.

Context {Msg WorkspaceContext UserEnvVar World : Type}.

Abbreviation Handler := (Handler Msg WorkspaceContext UserEnvVar World).
Abbreviation Prog := (Prog Msg WorkspaceContext UserEnvVar).
Abbreviation State := (State Msg World).
Abbreviation Event := (Event WorkspaceContext UserEnvVar).
Abbreviation Obj := (Obj Msg).

Implicit Types (h : Handler) (s : State) (hp : list Obj) (t : list Event).

(** ** The run of a sequence *)

Lemma run_bind {A B : Type} h (m : Prog A) (f : A -> Prog B) s :
  run h (bind m f) s =
  match run h m s with
  | (Resolved a, s', t) =>
      let '(r, s'', t') := run h (f a) s' in (r, s'', t ++ t')
  | (Rejected e, s', t) => (Rejected e, s', t)
  end.
Proof.
  revert s. induction m as [a|e|X c k IH|o k IH|o k IH|l k IH]; intros s; simpl.
  - destruct (run h (f a) s) as [[r s'] t]. reflexivity.
  - reflexivity.
  - destruct (h X c s) as [[x|e] s']; [|reflexivity].
    rewrite IH. destruct (run h (k x) s') as [[[a|e] s''] t]; [|reflexivity].
    destruct (run h (f a) s'') as [[r s3] t']. reflexivity.
  - rewrite IH. destruct (run h k s) as [[[a|e] s''] t]; [|reflexivity].
    destruct (run h (f a) s'') as [[r s3] t']. reflexivity.
  - apply IH.
  - destruct (heap s !! l); [apply IH|reflexivity].
Qed.

(** ** Strings *)

Lemma substring_all (s : string) : String.substring 0 (String.length s) s = s.
Proof. induction s as [|c s IH]; simpl; [reflexivity|]. by rewrite IH. Qed.

Lemma startsWith_Bearer (token : string) :
  startsWith ("Bearer " ++ token) "Bearer " = true.
Proof. unfold startsWith. simpl. by destruct token. Qed.

Lemma substring_Bearer (token : string) :
  substring ("Bearer " ++ token) (String.length "Bearer ") = token.
Proof.
  unfold substring. simpl. rewrite Nat.sub_0_r. apply substring_all.
Qed.

(** One character of a successful prefix test. *)
Ltac prefix_step H v :=
  destruct v as [|? v]; cbn [String.prefix] in H; [discriminate H|];
  match type of H with
  | context [ascii_dec ?a ?b] => destruct (ascii_dec a b) as [<-|]; [|discriminate H]
  end.

Lemma startsWith_inv (v : string) :
  startsWith v "Bearer " = true -> exists token, v = ("Bearer " ++ token)%string.
Proof.
  unfold startsWith. intros H.
  do 7 prefix_step H v. by exists v.
Qed.

(** ** Credential resolution, case by case *)

Local Arguments SHA256.hex : simpl never.

Lemma getUser_no_value h s ctx (metadata : gmap string (list string)) :
  Metadata.get "Authorization" metadata = [] ->
  run h (getUser ctx metadata) s = (Resolved None, s, []).
Proof. intros E. unfold getUser. by rewrite E. Qed.

Lemma getUser_not_Bearer h s ctx (metadata : gmap string (list string)) v rest :
  Metadata.get "Authorization" metadata = v :: rest ->
  startsWith v "Bearer " = false ->
  run h (getUser ctx metadata) s
  = (Resolved None, s, [Logged {| auth := v :: rest |}]).
Proof. intros E F. unfold getUser. rewrite E. simpl. by rewrite F. Qed.

Lemma getUser_Bearer h s ctx (metadata : gmap string (list string)) token rest :
  Metadata.get "Authorization" metadata = ("Bearer " ++ token)%string :: rest ->
  run h (getUser ctx metadata) s
  = let lookup :=
      userDB_findUserByGitpodToken ctx (SHA256.hex token) MACHINE_AUTH_TOKEN in
    let said := Logged {| auth := ("Bearer " ++ token)%string :: rest |} in
    match h _ lookup s with
    | (Resolved found, s') =>
        (Resolved (UserAndToken.user <$> found), s',
         [said; Called lookup (Resolved found)])
    | (Rejected e, s') => (Rejected e, s', [said; Called lookup (Rejected e)])
    end.
Proof.
  intros E. unfold getUser. rewrite E.
  cbn [bind console_log run]. rewrite startsWith_Bearer, substring_Bearer.
  cbn [negb bind await run].
  destruct (h _ _ s) as [[[found|]|e] s']; reflexivity.
Qed.

(** ** The call, up to the orchestration *)

Lemma getWorkspaceContext_unresolved h call s s' t :
  run h (getUser {| span := None |} (ServerUnaryCall.metadata call)) s
  = (Resolved None, s', t) ->
  run h (getWorkspaceContext call) s
  = (Rejected (StatusObject Status.UNAUTHENTICATED), s', t).
Proof.
  intros E. unfold getWorkspaceContext. rewrite run_bind, E.
  simpl. by rewrite app_nil_r.
Qed.

Lemma getWorkspaceContext_getUser_rejected h call s s' t e :
  run h (getUser {| span := None |} (ServerUnaryCall.metadata call)) s
  = (Rejected e, s', t) ->
  run h (getWorkspaceContext call) s = (Rejected e, s', t).
Proof. intros E. unfold getWorkspaceContext. by rewrite run_bind, E. Qed.

(** C1, at the code: whenever the request carries a value under
    [Authorization], the list of raw values, bearer token included, is what
    [getUser] writes to the console. *)
Theorem getUser_logs_raw_authorization h s ctx
  (metadata : gmap string (list string)) v rest :
  Metadata.get "Authorization" metadata = v :: rest ->
  logged (run h (getUser ctx metadata) s).2 = [ {| auth := v :: rest |} ].
Proof.
  intros E. destruct (startsWith v "Bearer ") eqn:F.
  - apply startsWith_inv in F as [token ->].
    rewrite (getUser_Bearer _ _ _ _ _ _ E). cbv zeta.
    destruct (h _ _ s) as [[found|e] s']; reflexivity.
  - by rewrite (getUser_not_Bearer _ _ _ _ _ _ E F).
Qed.

(** C4: a request with no [Authorization] entry, with an empty value list
    under it, or whose first value does not start with ["Bearer "] is
    answered with the status [UNAUTHENTICATED]; no collaborator is invoked
    and the state is left as it was.  The entry is the one under the folded
    key, ["authorization"], where the metadata keeps it whatever the case the
    header was written in. *)
Theorem missing_or_malformed_authorization_is_unauthenticated h call s :
  ServerUnaryCall.metadata call !! Metadata.normalizeKey "Authorization" = None
  \/ ServerUnaryCall.metadata call !! Metadata.normalizeKey "Authorization"
     = Some []
  \/ (exists v rest,
        ServerUnaryCall.metadata call !! Metadata.normalizeKey "Authorization"
        = Some (v :: rest)
        /\ startsWith v "Bearer " = false) ->
  exists t,
    run h (getWorkspaceContext call) s
    = (Rejected (StatusObject Status.UNAUTHENTICATED), s, t)
    /\ invoked t = []
    /\ server_getWorkspaceContext h call s
       = Rejected (StatusObject Status.UNAUTHENTICATED).
Proof.
  intros Hcase.
  assert (exists t,
    run h (getWorkspaceContext call) s
    = (Rejected (StatusObject Status.UNAUTHENTICATED), s, t)
    /\ invoked t = []) as (t & Hrun & Hnone).
  { destruct Hcase as [E|[E|(v & rest & E & F)]].
    - exists []. split; [|reflexivity].
      apply getWorkspaceContext_unresolved, getUser_no_value.
      unfold Metadata.get. by rewrite E.
    - exists []. split; [|reflexivity].
      apply getWorkspaceContext_unresolved, getUser_no_value.
      unfold Metadata.get. by rewrite E.
    - exists [Logged {| auth := v :: rest |}]. split; [|reflexivity].
      apply getWorkspaceContext_unresolved, getUser_not_Bearer; [|done].
      unfold Metadata.get. by rewrite E. }
  exists t. repeat split; [done..|].
  unfold server_getWorkspaceContext. by rewrite Hrun.
Qed.

(** C5: for a first value ["Bearer " ++ token], the resolver makes one
    lookup, with the hexadecimal SHA-256 digest of the token and the kind
    [MACHINE_AUTH_TOKEN]; it returns the user of the credential the store
    answers with, and nothing when the store answers with none. *)
Theorem getUser_returns_owner_of_digest h s ctx
  (metadata : gmap string (list string)) token rest found s' :
  Metadata.get "Authorization" metadata = ("Bearer " ++ token)%string :: rest ->
  h _ (userDB_findUserByGitpodToken ctx (SHA256.hex token) MACHINE_AUTH_TOKEN) s
  = (Resolved found, s') ->
  run h (getUser ctx metadata) s
  = (Resolved (UserAndToken.user <$> found), s',
     [ Logged {| auth := ("Bearer " ++ token)%string :: rest |};
       Called (userDB_findUserByGitpodToken ctx (SHA256.hex token)
                 MACHINE_AUTH_TOKEN) (Resolved found) ]).
Proof.
  intros E F. rewrite (getUser_Bearer _ _ _ _ _ _ E). cbv zeta. by rewrite F.
Qed.

(** C6, as the code has it: one lookup and no second one.  When the
    lookup resolves with no credential the call is rejected with the status
    [UNAUTHENTICATED]; when the lookup itself is rejected, the call is
    rejected with the lookup's error, unchanged. *)
Theorem lookup_failure_is_terminal h call s token rest :
  Metadata.get "Authorization" (ServerUnaryCall.metadata call)
  = ("Bearer " ++ token)%string :: rest ->
  let lookup :=
    userDB_findUserByGitpodToken {| span := None |} (SHA256.hex token)
      MACHINE_AUTH_TOKEN in
  let said := Logged {| auth := ("Bearer " ++ token)%string :: rest |} in
  (forall s', h _ lookup s = (Resolved None, s') ->
     run h (getWorkspaceContext call) s
     = (Rejected (StatusObject Status.UNAUTHENTICATED), s',
        [said; Called lookup (Resolved None)]))
  /\ (forall e s', h _ lookup s = (Rejected e, s') ->
        run h (getWorkspaceContext call) s
        = (Rejected e, s', [said; Called lookup (Rejected e)])).
Proof.
  intros E lookup said. split.
  - intros s' F. apply getWorkspaceContext_unresolved.
    rewrite (getUser_Bearer _ _ _ _ _ _ E). cbv zeta. fold lookup. by rewrite F.
  - intros e s' F. apply getWorkspaceContext_getUser_rejected.
    rewrite (getUser_Bearer _ _ _ _ _ _ E). cbv zeta. fold lookup. by rewrite F.
Qed.

(** C10: only the first value under [Authorization] is examined.  When it
    does not start with ["Bearer "] the resolver returns nothing and makes no
    lookup, whatever the later values are; when it is exactly ["Bearer "],
    the digest of the empty string is looked up like that of any token. *)
Theorem getUser_examines_first_value_only h s ctx
  (metadata : gmap string (list string)) v rest :
  Metadata.get "Authorization" metadata = v :: rest ->
  (startsWith v "Bearer " = false ->
   run h (getUser ctx metadata) s
   = (Resolved None, s, [Logged {| auth := v :: rest |}]))
  /\ (v = "Bearer " ->
      let lookup :=
        userDB_findUserByGitpodToken ctx (SHA256.hex "") MACHINE_AUTH_TOKEN in
      SHA256.hex ""
      = "e3b0c44298fc1c149afbf4c8996fb92427ae41e4649b934ca495991b7852b855"
      /\ run h (getUser ctx metadata) s
         = match h _ lookup s with
           | (Resolved found, s') =>
               (Resolved (UserAndToken.user <$> found), s',
                [ Logged {| auth := v :: rest |};
                  Called lookup (Resolved found) ])
           | (Rejected e, s') =>
               (Rejected e, s',
                [ Logged {| auth := v :: rest |};
                  Called lookup (Rejected e) ])
           end).
Proof.
  intros E. split.
  - intros F. by apply getUser_not_Bearer.
  - intros ->. split; [by vm_compute|].
    by rewrite (getUser_Bearer h s ctx metadata "" rest E).
Qed.

(** ** The translation writes nothing and calls nobody *)

Lemma overwriteEnvVar_silent h l s : (run h (overwriteEnvVar l) s).2 = [].
Proof.
  unfold overwriteEnvVar. simpl. destruct (heap s !! l) as [[| |]|]; reflexivity.
Qed.

Lemma array_map_overwriteEnvVar_silent h es :
  forall s, (run h (array_map overwriteEnvVar es) s).2 = [].
Proof.
  induction es as [|l es IH]; intros s; [reflexivity|].
  cbn [array_map]. rewrite run_bind.
  pose proof (overwriteEnvVar_silent h l s) as Hl.
  destruct (run h (overwriteEnvVar l) s) as [[[r|e] s1] t1]; simpl in Hl; subst t1;
    [|reflexivity].
  rewrite run_bind. specialize (IH s1).
  destruct (run h (array_map overwriteEnvVar es) s1) as [[[rs|e] s2] t2];
    simpl in IH; subst t2; reflexivity.
Qed.

Lemma translateSpec_silent h o s : (run h (translateSpec o) s).2 = [].
Proof.
  unfold translateSpec. simpl.
  destruct (heap s !! Internal.envvarsList o) as [[| |es]|]; try reflexivity.
  rewrite run_bind.
  pose proof (array_map_overwriteEnvVar_silent h es s) as Hes.
  destruct (run h (array_map overwriteEnvVar es) s) as [[[rs|e] s1] t1];
    simpl in Hes; subst t1; reflexivity.
Qed.

(** ** The orchestration *)

Local Arguments translateSpec : simpl never.

Ltac credential_cases h call s :=
  unfold getWorkspaceContext; rewrite run_bind;
  let E := fresh "E" in
  let F := fresh "F" in
  destruct (Metadata.get "Authorization" (ServerUnaryCall.metadata call))
    as [|?v ?rest] eqn:E;
  [ rewrite (getUser_no_value _ _ _ _ E)
  | match goal with
    | _ : _ = ?v :: ?rest |- _ =>
        destruct (startsWith v "Bearer ") eqn:F;
        [ apply startsWith_inv in F as [?token ->];
          rewrite (getUser_Bearer _ _ _ _ _ _ E); cbv zeta
        | rewrite (getUser_not_Bearer _ _ _ _ _ _ E F) ]
    end ].

Ltac collaborator_answers h :=
  cbn;
  repeat match goal with
         | |- context [h ?X ?c ?s] =>
             let r := fresh "r" in
             let e := fresh "e" in
             let s' := fresh "s" in
             destruct (h X c s) as [[r|e] s']; cbn
         | |- context [@fmap option _ _ _ _ ?r] =>
             is_var r; destruct r; cbn
         end.

Ltac translation_outcome h :=
  try match goal with
      | |- context [run h (bind (translateSpec ?o) ?k) ?s] =>
          rewrite (run_bind h (translateSpec o) k s);
          let Hs := fresh "Hsilent" in
          pose proof (translateSpec_silent h o s) as Hs;
          destruct (run h (translateSpec o) s) as [[[?w|?e] ?s] ?t];
          simpl in Hs; subst; cbn
      end.

(** C7: the collaborators are invoked in the fixed order, each after the
    one before it has resolved, and the first rejection ends the call with
    that error and without a response.  When the context resolution is
    rejected, the calls made are the credential lookup, the normalization and
    the resolution: the workspace factory and the instance starter are not
    invoked. *)
Theorem orchestration_is_ordered_and_aborts h call s out s' t :
  run h (getWorkspaceContext call) s = (out, s', t) ->
  invoked t `prefix_of` orchestration
  /\ (forall resp, out = Resolved resp -> invoked t = orchestration)
  /\ (forall m e, Exists (rejected_with m e) t ->
        out = Rejected e /\ last (invoked t) = Some m)
  /\ (forall e, Exists (rejected_with Handle e) t ->
        out = Rejected e
        /\ invoked t = [FindUserByGitpodToken; NormalizeContextURL; Handle]).
Proof.
  credential_cases h call s; collaborator_answers h; translation_outcome h;
    intros [= <- <- <-]; cbn [invoked method];
    (split; [unfold orchestration; eexists; reflexivity|]);
    (split; [intros ? [=]; reflexivity || done|]);
    split; intros *; rewrite ?Exists_cons, Exists_nil; cbn [rejected_with];
    intuition (subst; try discriminate; try done).
Qed.

(** C2: in the response of a successful call, [servicePrefix] and
    [metadata.metaId] are the id of the workspace the factory created, [id] is
    the id of the instance the starter allocated for it (and [owner] is the
    workspace's owner). *)
Theorem response_identifies_workspace_and_instance h call s resp s' t :
  run h (getWorkspaceContext call) s = (Resolved resp, s', t) ->
  exists ctx user context url workspace instance,
    In (Called (workspaceFactory_createForContext ctx user context url)
          (Resolved workspace)) t
    /\ In (Called (workspaceStarter_newInstance workspace user)
             (Resolved instance)) t
    /\ GetWorkspaceContextResponse.servicePrefix resp = Workspace.id workspace
    /\ WorkspaceMetadata.metaId (GetWorkspaceContextResponse.metadata resp)
       = Workspace.id workspace
    /\ WorkspaceMetadata.owner (GetWorkspaceContextResponse.metadata resp)
       = Workspace.ownerId workspace
    /\ GetWorkspaceContextResponse.id resp = WorkspaceInstance.id instance.
Proof.
  credential_cases h call s; collaborator_answers h; translation_outcome h;
    try discriminate.
  intros [= <- <- <-].
  eexists _, _, _, _, _, _. cbn.
  split; [do 4 right; left; reflexivity|].
  split; [do 5 right; left; reflexivity|].
  repeat split.
Qed.

(** ** The store only grows *)

Lemma readMessage_app hp extra l m :
  readMessage hp l = Some m -> readMessage (hp ++ extra) l = Some m.
Proof.
  unfold readMessage. destruct (hp !! l) as [o|] eqn:E; [|discriminate].
  by rewrite (lookup_app_l_Some _ _ _ _ E).
Qed.

Lemma readEnvVar_app hp extra l e :
  readEnvVar hp l = Some e -> readEnvVar (hp ++ extra) l = Some e.
Proof.
  unfold readEnvVar. destruct (hp !! l) as [o|] eqn:E; [|discriminate].
  by rewrite (lookup_app_l_Some _ _ _ _ E).
Qed.

Lemma readArray_app hp extra l ls :
  readArray hp l = Some ls -> readArray (hp ++ extra) l = Some ls.
Proof.
  unfold readArray. destruct (hp !! l) as [o|] eqn:E; [|discriminate].
  by rewrite (lookup_app_l_Some _ _ _ _ E).
Qed.

Lemma readOptional_app hp extra f g :
  readOptional hp f = Some g -> readOptional (hp ++ extra) f = Some g.
Proof.
  destruct f as [l|]; [|done]. simpl.
  destruct (readMessage hp l) as [m|] eqn:E; [|discriminate].
  by rewrite (readMessage_app _ extra _ _ E).
Qed.

Lemma mapM_readMessage_app hp extra ls ms :
  mapM (readMessage hp) ls = Some ms ->
  mapM (readMessage (hp ++ extra)) ls = Some ms.
Proof.
  rewrite !mapM_Some. intros H. eapply Forall2_impl; [exact H|].
  intros l m. apply readMessage_app.
Qed.

Lemma mapM_readEnvVar_app hp extra ls es :
  mapM (readEnvVar hp) ls = Some es ->
  mapM (readEnvVar (hp ++ extra)) ls = Some es.
Proof.
  rewrite !mapM_Some. intros H. eapply Forall2_impl; [exact H|].
  intros l m. apply readEnvVar_app.
Qed.

(** Both [toObject()]s go through the same six reads. *)
Ltac next_read H extra :=
  match type of H with
  | context [readArray ?hp ?l] =>
      let E := fresh "E" in
      destruct (readArray hp l) eqn:E; [|discriminate H];
      try rewrite (readArray_app _ extra _ _ E)
  | context [mapM (readEnvVar ?hp) ?ls] =>
      let E := fresh "E" in
      destruct (mapM (readEnvVar hp) ls) eqn:E; [|discriminate H];
      try rewrite (mapM_readEnvVar_app _ extra _ _ E)
  | context [readOptional ?hp ?f] =>
      let E := fresh "E" in
      destruct (readOptional hp f) eqn:E; [|discriminate H];
      try rewrite (readOptional_app _ extra _ _ E)
  | context [mapM (readMessage ?hp) ?ls] =>
      let E := fresh "E" in
      destruct (mapM (readMessage hp) ls) eqn:E; [|discriminate H];
      try rewrite (mapM_readMessage_app _ extra _ _ E)
  end; simpl in H |- *.

Lemma Internal_toObject_app hp extra o io :
  Internal_toObject hp o = Some io ->
  Internal_toObject (hp ++ extra) o = Some io.
Proof.
  unfold Internal_toObject. intros H. do 6 next_read H extra. exact H.
Qed.

Lemma Wire_toObject_app hp extra w wo :
  Wire_toObject hp w = Some wo -> Wire_toObject (hp ++ extra) w = Some wo.
Proof.
  unfold Wire_toObject. intros H. do 6 next_read H extra. exact H.
Qed.

(** ** The translation, step by step *)

Lemma run_overwriteEnvVar h s l e :
  readEnvVar (heap s) l = Some e ->
  run h (overwriteEnvVar l) s
  = (Resolved (length (heap s)),
     {| heap := heap s ++ [OEnvVar (overwritten e)]; world := world s |}, []).
Proof.
  unfold readEnvVar, overwriteEnvVar. simpl.
  destruct (heap s !! l) as [[| |]|]; intros [= ->]. reflexivity.
Qed.

Lemma run_array_map_overwriteEnvVar h es :
  forall s evs,
    mapM (readEnvVar (heap s)) es = Some evs ->
    run h (array_map overwriteEnvVar es) s
    = (Resolved (seq (length (heap s)) (length es)),
       {| heap := heap s ++ ((fun e => OEnvVar (overwritten e)) <$> evs);
          world := world s |}, []).
Proof.
  induction es as [|l es IH]; intros s evs H; apply mapM_Some in H.
  - inversion H; subst. destruct s. simpl. by rewrite app_nil_r.
  - inversion H as [|? e ? evs' He Hrest]; subst.
    cbn [array_map]. rewrite run_bind, (run_overwriteEnvVar _ _ _ _ He).
    rewrite run_bind.
    rewrite (IH _ evs').
    + cbn. rewrite length_app, Nat.add_1_r, <- app_assoc. reflexivity.
    + apply mapM_Some. cbn. eapply Forall2_impl; [exact Hrest|].
      intros ? ?. apply readEnvVar_app.
Qed.

Lemma mapM_readEnvVar_new (evs : list EnvironmentVariable.t) :
  forall hp extra,
    mapM (readEnvVar (hp ++ (OEnvVar <$> evs) ++ extra))
         (seq (length hp) (length evs))
    = Some evs.
Proof.
  induction evs as [|e evs IH]; intros hp extra; [reflexivity|].
  cbn [length seq fmap list_fmap mapM app].
  assert (readEnvVar (hp ++ OEnvVar e :: (OEnvVar <$> evs) ++ extra) (length hp)
          = Some e) as ->.
  { unfold readEnvVar. by rewrite list_lookup_middle. }
  specialize (IH (hp ++ [OEnvVar e]) extra).
  rewrite length_app, Nat.add_1_r, <- app_assoc in IH. cbn in IH.
  cbn. by rewrite IH.
Qed.

Lemma readArray_new hp (objs : list Obj) ls :
  readArray (hp ++ objs ++ [OArray ls]) (length hp + length objs) = Some ls.
Proof.
  unfold readArray. rewrite app_assoc.
  rewrite list_lookup_middle; [done|]. by rewrite length_app.
Qed.

(** The translation of a specification that can be read in the store:
    what it returns, what it adds to the store, and what the result reads
    as. *)
Lemma run_translateSpec h s o io :
  Internal_toObject (heap s) o = Some io ->
  exists es,
    readArray (heap s) (Internal.envvarsList o) = Some es
    /\ length es = length (AsObject.envvarsList io)
    /\ let new :=
         ((fun e => OEnvVar (overwritten e)) <$> AsObject.envvarsList io)
         ++ [OArray (seq (length (heap s)) (length es))] in
       let w :=
         {| Wire.admission := Internal.admission o;
            Wire.checkoutLocation := Internal.checkoutLocation o;
            Wire.envvarsList := length (heap s) + length es;
            Wire.git := Internal.git o;
            Wire.ideImage := Internal.ideImage o;
            Wire.initializer := Internal.initializer o;
            Wire.portsList := Internal.portsList o;
            Wire.timeout := Internal.timeout o;
            Wire.workspaceImage := Internal.workspaceImage o;
            Wire.workspaceLocation := Internal.workspaceLocation o |} in
       run h (translateSpec o) s
       = (Resolved w, {| heap := heap s ++ new; world := world s |}, [])
       /\ Wire_toObject (heap s ++ new) w = Some (expected_wire_object io).
Proof.
  unfold Internal_toObject. intros H.
  destruct (readArray (heap s) (Internal.envvarsList o)) as [es|] eqn:Hes;
    [|discriminate]. simpl in H.
  destruct (mapM (readEnvVar (heap s)) es) as [evs|] eqn:Hevs; [|discriminate].
  simpl in H.
  destruct (readOptional (heap s) (Internal.git o)) as [g|] eqn:Hg;
    [|discriminate]. simpl in H.
  destruct (readOptional (heap s) (Internal.initializer o)) as [i|] eqn:Hi;
    [|discriminate]. simpl in H.
  destruct (readArray (heap s) (Internal.portsList o)) as [ps|] eqn:Hps;
    [|discriminate]. simpl in H.
  destruct (mapM (readMessage (heap s)) ps) as [ports|] eqn:Hports;
    [|discriminate]. simpl in H.
  injection H as <-. cbn [AsObject.envvarsList].
  assert (length es = length evs) as Hlen.
  { apply mapM_Some in Hevs. by apply Forall2_length in Hevs. }
  exists es. split; [done|]. split; [done|]. cbv zeta. split.
  - unfold translateSpec. cbn [bind get run].
    unfold readArray in Hes.
    destruct (heap s !! Internal.envvarsList o) as [[| |es']|]; try discriminate.
    injection Hes as ->.
    rewrite run_bind, (run_array_map_overwriteEnvVar _ _ _ _ Hevs).
    cbn. rewrite length_app, length_fmap, <- app_assoc, Hlen. reflexivity.
  - unfold Wire_toObject, expected_wire_object. cbn.
    pose proof (readArray_new (heap s)
                  ((fun e => OEnvVar (overwritten e) : Obj) <$> evs)
                  (seq (length (heap s)) (length es))) as Harr.
    rewrite length_fmap, <- Hlen in Harr. rewrite Harr. cbn.
    pose proof (mapM_readEnvVar_new (overwritten <$> evs) (heap s)
                  [OArray (seq (length (heap s)) (length es))]) as Hnew.
    rewrite <- list_fmap_compose, length_fmap, <- Hlen in Hnew.
    unfold compose in Hnew. rewrite Hnew. cbn.
    rewrite (readOptional_app _ _ _ _ Hg). cbn.
    rewrite (readOptional_app _ _ _ _ Hi). cbn.
    rewrite (readArray_app _ _ _ _ Hps). cbn.
    by rewrite (mapM_readMessage_app _ _ _ _ Hports).
Qed.

(** ** What the two specifications hold *)

Lemma readMessage_lt hp l m : readMessage hp l = Some m -> l < length hp.
Proof.
  unfold readMessage. destruct (hp !! l) eqn:E; [|discriminate].
  intros _. by apply lookup_lt_Some in E.
Qed.

Lemma readEnvVar_lt hp l e : readEnvVar hp l = Some e -> l < length hp.
Proof.
  unfold readEnvVar. destruct (hp !! l) eqn:E; [|discriminate].
  intros _. by apply lookup_lt_Some in E.
Qed.

Lemma readArray_lt hp l ls : readArray hp l = Some ls -> l < length hp.
Proof.
  unfold readArray. destruct (hp !! l) eqn:E; [|discriminate].
  intros _. by apply lookup_lt_Some in E.
Qed.

Lemma readOptional_lt hp f g l :
  readOptional hp f = Some g -> In l (option_refs f) -> l < length hp.
Proof.
  destruct f as [l'|]; simpl; [|tauto].
  destruct (readMessage hp l') as [m|] eqn:E; [|discriminate].
  intros _ [<-|[]]. by apply readMessage_lt in E.
Qed.

Lemma array_refs_lt {A} (rd : list Obj -> loc -> option A) hp extra a ls xs l :
  (forall l x, rd hp l = Some x -> l < length hp) ->
  readArray hp a = Some ls ->
  mapM (rd hp) ls = Some xs ->
  In l (array_refs (hp ++ extra) a) -> l < length hp.
Proof.
  intros Hrd Ha Hls. unfold array_refs.
  rewrite (readArray_app _ extra _ _ Ha). simpl. intros [<-|Hl].
  - by apply readArray_lt in Ha.
  - assert (Forall (is_Some ∘ rd hp) ls) as Hall
      by (apply mapM_is_Some; eauto).
    rewrite Forall_forall in Hall. apply list_elem_of_In in Hl.
    destruct (Hall l Hl) as [x Hx]. by eapply Hrd.
Qed.

(** Whatever a readable specification holds was in the store it was read
    from. *)
Lemma Internal_refs_lt hp extra o io l :
  Internal_toObject hp o = Some io ->
  In l (Internal_refs (hp ++ extra) o) -> l < length hp.
Proof.
  unfold Internal_toObject. intros H.
  destruct (readArray hp (Internal.envvarsList o)) as [es|] eqn:Hes;
    [|discriminate]. simpl in H.
  destruct (mapM (readEnvVar hp) es) as [evs|] eqn:Hevs; [|discriminate].
  simpl in H.
  destruct (readOptional hp (Internal.git o)) as [g|] eqn:Hg; [|discriminate].
  simpl in H.
  destruct (readOptional hp (Internal.initializer o)) as [i|] eqn:Hi;
    [|discriminate]. simpl in H.
  destruct (readArray hp (Internal.portsList o)) as [ps|] eqn:Hps;
    [|discriminate]. simpl in H.
  destruct (mapM (readMessage hp) ps) as [ports|] eqn:Hports; [|discriminate].
  clear H. unfold Internal_refs, Internal_envvar_refs.
  rewrite !in_app_iff. intros [Hl|[Hl|[Hl|Hl]]].
  - eapply (array_refs_lt readEnvVar hp extra _ es evs);
      [apply readEnvVar_lt | exact Hes | exact Hevs | exact Hl].
  - exact (readOptional_lt _ _ _ _ Hg Hl).
  - exact (readOptional_lt _ _ _ _ Hi Hl).
  - eapply (array_refs_lt readMessage hp extra _ ps ports);
      [apply readMessage_lt | exact Hps | exact Hports | exact Hl].
Qed.

(** ** The specification translator *)

(** C3: the translation of a specification gives a wire specification
    whose environment variables have, entry by entry, the names and the
    values of the starter's ones, and all of them the mode [OVERWRITE]. *)
Theorem translation_overwrites_every_mode h s o io :
  Internal_toObject (heap s) o = Some io ->
  exists w s' wo,
    run h (translateSpec o) s = (Resolved w, s', [])
    /\ Wire_toObject (heap s') w = Some wo
    /\ Forall (fun e => EnvironmentVariable.mode e = OVERWRITE)
         (AsObject.envvarsList wo)
    /\ EnvironmentVariable.name <$> AsObject.envvarsList wo
       = EnvironmentVariable.name <$> AsObject.envvarsList io
    /\ EnvironmentVariable.value <$> AsObject.envvarsList wo
       = EnvironmentVariable.value <$> AsObject.envvarsList io.
Proof.
  intros Hio.
  destruct (run_translateSpec h s o io Hio) as (es & _ & _ & Hrun & Hread).
  eexists _, _, _. split; [exact Hrun|]. split; [exact Hread|].
  cbn [expected_wire_object AsObject.envvarsList].
  split; [|split].
  - apply Forall_fmap, Forall_forall. by intros e _.
  - by rewrite <- list_fmap_compose.
  - by rewrite <- list_fmap_compose.
Qed.

(** C8, as the code has it: the translation of a readable specification
    always returns, calls nobody, and only adds objects to the store.  The
    wire specification reads field for field as the starter's one (the
    environment variables apart); its environment variables and their array
    are new objects, which the starter's specification does not hold; its
    source-control info, initializer and port list are the very objects of
    the starter's specification, passed by reference. *)
Theorem translation_copies_values_and_passes_references h s o io :
  Internal_toObject (heap s) o = Some io ->
  exists w new wo,
    run h (translateSpec o) s
    = (Resolved w, {| heap := heap s ++ new; world := world s |}, [])
    /\ Internal_toObject (heap s ++ new) o = Some io
    /\ Wire_toObject (heap s ++ new) w = Some wo
    /\ AsObject.admission wo = AsObject.admission io
    /\ AsObject.checkoutLocation wo = AsObject.checkoutLocation io
    /\ AsObject.git wo = AsObject.git io
    /\ AsObject.ideImage wo = AsObject.ideImage io
    /\ AsObject.initializer wo = AsObject.initializer io
    /\ AsObject.portsList wo = AsObject.portsList io
    /\ AsObject.timeout wo = AsObject.timeout io
    /\ AsObject.workspaceImage wo = AsObject.workspaceImage io
    /\ AsObject.workspaceLocation wo = AsObject.workspaceLocation io
    /\ Wire.git w = Internal.git o
    /\ Wire.initializer w = Internal.initializer o
    /\ Wire.portsList w = Internal.portsList o
    /\ (forall l, In l (Wire_envvar_refs (heap s ++ new) w) ->
          ~ In l (Internal_refs (heap s ++ new) o)).
Proof.
  intros Hio.
  destruct (run_translateSpec h s o io Hio) as (es & Hes & Hlen & Hrun & Hread).
  eexists _, _, _. split; [exact Hrun|].
  split; [by apply Internal_toObject_app|].
  split; [exact Hread|].
  do 12 (split; [reflexivity|]).
  intros l Hw Hi. apply (Internal_refs_lt _ _ _ _ _ Hio) in Hi.
  unfold Wire_envvar_refs, array_refs in Hw. cbn [Wire.envvarsList] in Hw.
  assert (length es
          = length ((fun e => OEnvVar (overwritten e) : Obj)
                      <$> AsObject.envvarsList io)) as Hlen'
    by (by rewrite length_fmap).
  rewrite Hlen', readArray_new, <- Hlen' in Hw. simpl in Hw.
  destruct Hw as [<-|Hw]; [lia|]. apply in_seq in Hw. lia.
Qed.

(** C9: the translation does not depend on the collaborators, and
    translating the same specification a second time gives a wire
    specification that reads, field for field, as the first one. *)
Theorem translation_twice_reads_equal h1 h2 s o io :
  Internal_toObject (heap s) o = Some io ->
  exists w1 s1 w2 s2 wo,
    run h1 (translateSpec o) s = (Resolved w1, s1, [])
    /\ run h2 (translateSpec o) s = (Resolved w1, s1, [])
    /\ run h2 (translateSpec o) s1 = (Resolved w2, s2, [])
    /\ Wire_toObject (heap s2) w1 = Some wo
    /\ Wire_toObject (heap s2) w2 = Some wo.
Proof.
  intros Hio.
  destruct (run_translateSpec h1 s o io Hio) as (es & Hes & Hlen & Hrun1 & Hread1).
  destruct (run_translateSpec h2 s o io Hio) as (es' & Hes' & _ & Hrun1' & _).
  assert (es' = es) as -> by congruence.
  cbv zeta in *.
  set (s1 := {| heap := heap s ++ _; world := world s |}) in *.
  assert (Internal_toObject (heap s1) o = Some io) as Hio1
    by (by apply Internal_toObject_app).
  destruct (run_translateSpec h2 s1 o io Hio1) as (es2 & _ & _ & Hrun2 & Hread2).
  cbv zeta in *.
  eexists _, s1, _, _, _.
  split; [exact Hrun1|]. split; [exact Hrun1'|]. split; [exact Hrun2|].
  split; [|exact Hread2].
  cbn [heap]. by apply Wire_toObject_app.
Qed.

(** * Further properties *)

(** ** The header and the token *)

(** X1: a header passes [startsWith("Bearer ")] exactly when it is
    ["Bearer "] followed by what [substring("Bearer ".length)] takes as the
    token; nothing is trimmed or lost between the two. *)
Theorem accepted_header_is_prefix_and_token (v : string) :
  startsWith v "Bearer " = true
  <-> v = ("Bearer " ++ substring v (String.length "Bearer "))%string.
Proof.
  split.
  - intros H. apply startsWith_inv in H as [token ->].
    by rewrite substring_Bearer.
  - intros ->. apply startsWith_Bearer.
Qed.

(** ** Credential resolution, read backwards *)

(** X2: [getUser] returns a user only from a credential of the store:
    if it resolves with [u], the first [Authorization] value is ["Bearer "]
    and a token, the store was asked once, for the digest of that token and
    the kind [MACHINE_AUTH_TOKEN], it answered with a credential whose user
    is [u], and the state is the one the store left. *)
Theorem getUser_some_comes_from_store h s ctx
  (metadata : gmap string (list string)) u s' t :
  run h (getUser ctx metadata) s = (Resolved (Some u), s', t) ->
  exists token rest c,
    Metadata.get "Authorization" metadata = ("Bearer " ++ token)%string :: rest
    /\ h _ (userDB_findUserByGitpodToken ctx (SHA256.hex token)
              MACHINE_AUTH_TOKEN) s
       = (Resolved (Some c), s')
    /\ UserAndToken.user c = u
    /\ t = [ Logged {| auth := ("Bearer " ++ token)%string :: rest |};
             Called (userDB_findUserByGitpodToken ctx (SHA256.hex token)
                       MACHINE_AUTH_TOKEN) (Resolved (Some c)) ].
Proof.
  destruct (Metadata.get "Authorization" metadata) as [|v rest] eqn:E.
  { by rewrite (getUser_no_value _ _ _ _ E). }
  destruct (startsWith v "Bearer ") eqn:F.
  2:{ by rewrite (getUser_not_Bearer _ _ _ _ _ _ E F). }
  apply startsWith_inv in F as [token ->].
  rewrite (getUser_Bearer _ _ _ _ _ _ E). cbv zeta.
  destruct (h _ _ s) as [[[c|]|e] s1] eqn:Hlookup; intros [= <- <- <-].
  by exists token, rest, c.
Qed.

(** X3: no orchestration without authentication.  If a run of
    [getWorkspaceContext] invokes any collaborator method other than the
    credential lookup, then the first [Authorization] value is ["Bearer "]
    and a token, and the run began with the lookup of that token's digest,
    which the store answered with a credential. *)
Theorem orchestration_only_after_credential h call s out s' t m :
  run h (getWorkspaceContext call) s = (out, s', t) ->
  In m (invoked t) -> m <> FindUserByGitpodToken ->
  exists token rest c s1 t',
    Metadata.get "Authorization" (ServerUnaryCall.metadata call)
    = ("Bearer " ++ token)%string :: rest
    /\ h _ (userDB_findUserByGitpodToken {| span := None |} (SHA256.hex token)
              MACHINE_AUTH_TOKEN) s
       = (Resolved (Some c), s1)
    /\ t = Logged {| auth := ("Bearer " ++ token)%string :: rest |}
           :: Called (userDB_findUserByGitpodToken {| span := None |}
                        (SHA256.hex token) MACHINE_AUTH_TOKEN)
                (Resolved (Some c))
           :: t'.
Proof.
  unfold getWorkspaceContext. rewrite run_bind.
  destruct (Metadata.get "Authorization" (ServerUnaryCall.metadata call))
    as [|v rest] eqn:E.
  { rewrite (getUser_no_value _ _ _ _ E). cbn. by intros [= <- <- <-] []. }
  destruct (startsWith v "Bearer ") eqn:F.
  2:{ rewrite (getUser_not_Bearer _ _ _ _ _ _ E F). cbn.
      by intros [= <- <- <-] []. }
  apply startsWith_inv in F as [token ->].
  rewrite (getUser_Bearer _ _ _ _ _ _ E). cbv zeta.
  destruct (h _ _ s) as [[[c|]|e] s1] eqn:Hlookup.
  - destruct (run h _ s1) as [[r s2] t'] eqn:Hrest.
    intros [= <- <- <-] _ _. by exists token, rest, c, s1, t'.
  - cbn. intros [= <- <- <-] [<-|[]] Hm. by destruct Hm.
  - intros [= <- <- <-] [<-|[]] Hm. by destruct Hm.
Qed.

(** X4: the chain of a successful call.  Whatever the collaborators, a
    call that resolves made exactly the seven calls, each with the results of
    the ones before it: the user of the credential found goes to the context
    resolver, the factory, the starter and (by its id) the variable store;
    the factory gets the normalized URL and the resolved context; the starter
    the workspace, then the workspace, the instance and the variables; the
    response is built from the workspace and the instance. *)
Theorem resolved_call_chain h call s resp s' t :
  run h (getWorkspaceContext call) s = (Resolved resp, s', t) ->
  exists token rest c url context workspace instance envVars originalspec,
    let ctx := {| span := None |} in
    let user := UserAndToken.user c in
    Metadata.get "Authorization" (ServerUnaryCall.metadata call)
    = ("Bearer " ++ token)%string :: rest
    /\ t = [ Logged {| auth := ("Bearer " ++ token)%string :: rest |};
             Called (userDB_findUserByGitpodToken ctx (SHA256.hex token)
                       MACHINE_AUTH_TOKEN) (Resolved (Some c));
             Called (contextParser_normalizeContextURL
                       (GetWorkspaceContextRequest.contextUrl
                          (ServerUnaryCall.request call))) (Resolved url);
             Called (contextParser_handle ctx user url) (Resolved context);
             Called (workspaceFactory_createForContext ctx user context url)
               (Resolved workspace);
             Called (workspaceStarter_newInstance workspace user)
               (Resolved instance);
             Called (userDB_getEnvVars ctx (User.id user)) (Resolved envVars);
             Called (workspaceStarter_createSpec ctx user workspace instance
                       envVars) (Resolved originalspec) ]
    /\ resp = {| GetWorkspaceContextResponse.id := WorkspaceInstance.id instance;
                 GetWorkspaceContextResponse.metadata :=
                   {| WorkspaceMetadata.metaId := Workspace.id workspace;
                      WorkspaceMetadata.owner := Workspace.ownerId workspace |};
                 GetWorkspaceContextResponse.servicePrefix :=
                   Workspace.id workspace;
                 GetWorkspaceContextResponse.spec :=
                   GetWorkspaceContextResponse.spec resp |}.
Proof.
  credential_cases h call s; collaborator_answers h; translation_outcome h;
    try discriminate.
  intros [= <- <- <-].
  eexists _, _, _, _, _, _, _, _, _. cbn. by repeat split.
Qed.

(** X5: the call resolves when everything it depends on does.  With a
    bearer token whose digest the store answers with a credential, every
    collaborator resolving in turn, and a specification that can be read in
    the store the starter leaves, [getWorkspaceContext] resolves; the
    response carries the instance id, the workspace id and owner, and a
    specification that reads as the starter's one with every mode
    overwritten; the store is the starter's, with new objects added. *)
Theorem getWorkspaceContext_resolves h call s token rest c s1 url s2 context s3
  workspace s4 instance s5 envVars s6 originalspec s7 io :
  let ctx := {| span := None |} in
  let user := UserAndToken.user c in
  Metadata.get "Authorization" (ServerUnaryCall.metadata call)
  = ("Bearer " ++ token)%string :: rest ->
  h _ (userDB_findUserByGitpodToken ctx (SHA256.hex token) MACHINE_AUTH_TOKEN) s
  = (Resolved (Some c), s1) ->
  h _ (contextParser_normalizeContextURL
         (GetWorkspaceContextRequest.contextUrl (ServerUnaryCall.request call))) s1
  = (Resolved url, s2) ->
  h _ (contextParser_handle ctx user url) s2 = (Resolved context, s3) ->
  h _ (workspaceFactory_createForContext ctx user context url) s3
  = (Resolved workspace, s4) ->
  h _ (workspaceStarter_newInstance workspace user) s4 = (Resolved instance, s5) ->
  h _ (userDB_getEnvVars ctx (User.id user)) s5 = (Resolved envVars, s6) ->
  h _ (workspaceStarter_createSpec ctx user workspace instance envVars) s6
  = (Resolved originalspec, s7) ->
  Internal_toObject (heap s7) originalspec = Some io ->
  exists resp new t,
    run h (getWorkspaceContext call) s
    = (Resolved resp, {| heap := heap s7 ++ new; world := world s7 |}, t)
    /\ invoked t = orchestration
    /\ GetWorkspaceContextResponse.id resp = WorkspaceInstance.id instance
    /\ GetWorkspaceContextResponse.servicePrefix resp = Workspace.id workspace
    /\ GetWorkspaceContextResponse.metadata resp
       = {| WorkspaceMetadata.metaId := Workspace.id workspace;
            WorkspaceMetadata.owner := Workspace.ownerId workspace |}
    /\ Wire_toObject (heap s7 ++ new) (GetWorkspaceContextResponse.spec resp)
       = Some (expected_wire_object io).
Proof.
  intros ctx user E H1 H2 H3 H4 H5 H6 H7 Hio.
  destruct (run_translateSpec h s7 originalspec io Hio)
    as (es & _ & _ & Hrun & Hread).
  cbv zeta in Hrun, Hread.
  unfold getWorkspaceContext. rewrite run_bind, (getUser_Bearer _ _ _ _ _ _ E).
  cbv zeta. fold ctx. rewrite H1. cbn [fmap option_fmap option_map].
  cbn [bind await run]. fold user. rewrite H2.
  cbn [run]. rewrite H3. cbn [run]. rewrite H4. cbn [run]. rewrite H5.
  cbn [run]. rewrite H6. cbn [run]. rewrite H7.
  rewrite run_bind, Hrun. cbn [run].
  eexists _, _, _. split; [reflexivity|]. cbn. by repeat split.
Qed.

(** ** The key of the lookup *)

Lemma round_length st kw : length (SHA256.round st kw) = length st.
Proof.
  unfold SHA256.round.
  do 9 (destruct st as [|? st]; [reflexivity|]). reflexivity.
Qed.

Lemma fold_round_length kws :
  forall st, length (fold_left SHA256.round kws st) = length st.
Proof.
  induction kws as [|kw kws IH]; intros st; simpl; [done|].
  by rewrite IH, round_length.
Qed.

Lemma compress_length hs block :
  length (SHA256.compress hs block) = length hs.
Proof.
  unfold SHA256.compress.
  rewrite List.length_map, List.length_combine, fold_round_length. lia.
Qed.

Lemma process_length fuel :
  forall ws hs, length (SHA256.process fuel ws hs) = length hs.
Proof.
  induction fuel as [|fuel IH]; intros ws hs; simpl; [done|].
  destruct ws; [done|]. by rewrite IH, compress_length.
Qed.

Lemma nibble_range (w i : Z) : (0 <= Z.land (Z.shiftr w (4 * i)) 0xf < 16)%Z.
Proof.
  change 0xf%Z with (Z.ones 4). rewrite Z.land_ones by lia.
  apply Z.mod_pos_bound. lia.
Qed.

Lemma hex_digit_lower (d : Z) :
  (0 <= d < 16)%Z -> is_lower_hex (SHA256.hex_digit d) = true.
Proof.
  intros Hd.
  assert (d = 0 \/ d = 1 \/ d = 2 \/ d = 3 \/ d = 4 \/ d = 5 \/ d = 6 \/ d = 7
          \/ d = 8 \/ d = 9 \/ d = 10 \/ d = 11 \/ d = 12 \/ d = 13 \/ d = 14
          \/ d = 15)%Z as Hcases by lia.
  repeat (destruct Hcases as [->|Hcases]; [reflexivity|]). by subst.
Qed.

Lemma hex_of_nibbles_shaped ds :
  Forall (fun d => (0 <= d < 16)%Z) ds ->
  String.length (SHA256.hex_of_nibbles ds) = length ds
  /\ Forall (fun c => is_lower_hex c = true)
       (list_ascii_of_string (SHA256.hex_of_nibbles ds)).
Proof.
  induction 1 as [|d ds Hd _ [IHlen IHall]]; simpl; [by split|].
  split; [by rewrite IHlen|]. constructor; [by apply hex_digit_lower|done].
Qed.

Lemma nibbles_of_words ws :
  length (concat (map SHA256.nibbles ws)) = 8 * length ws
  /\ Forall (fun d => (0 <= d < 16)%Z) (concat (map SHA256.nibbles ws)).
Proof.
  induction ws as [|w ws [IHlen IHall]]; [by split|].
  cbn [map concat]. split.
  - rewrite List.length_app, IHlen. cbn. lia.
  - apply Forall_app. split; [|done].
    unfold SHA256.nibbles. cbn [map]. repeat constructor; apply nibble_range.
Qed.

(** Whatever the token, its digest is 64 characters among [0-9a-f]. *)
Lemma SHA256_hex_shaped (token : string) : digest_shaped (SHA256.hex token).
Proof.
  unfold digest_shaped, SHA256.hex.
  destruct (nibbles_of_words (SHA256.digest_words (SHA256.bytes_of_string token)))
    as [Hlen Hall].
  destruct (hex_of_nibbles_shaped _ Hall) as [Hlen' Hall'].
  split; [|done]. rewrite Hlen', Hlen.
  unfold SHA256.digest_words. by rewrite process_length.
Qed.

(** X6: the credential store is only ever asked for machine credentials,
    and only by the hexadecimal SHA-256 digest of the token, the text after
    ["Bearer "] in the first [Authorization] value; that key is 64 characters
    among [0-9a-f] whatever the length and content of the token. *)
Theorem every_lookup_is_by_digest h call s out s' t :
  run h (getWorkspaceContext call) s = (out, s', t) ->
  Forall (lookup_by_digest_of
            (Metadata.get "Authorization" (ServerUnaryCall.metadata call))) t.
Proof.
  credential_cases h call s; collaborator_answers h; translation_outcome h;
    intros [= <- <- <-];
    repeat (constructor;
            [ cbn [lookup_by_digest_of];
              first [ exact I
                    | split; [reflexivity|];
                      split; [apply SHA256_hex_shaped|]; by eexists _, _ ]
            | ]);
    constructor.
Qed.

(** ** What of the metadata matters *)

Lemma calls_app t1 t2 : calls (t1 ++ t2) = calls t1 ++ calls t2.
Proof.
  induction t1 as [|[o|X c r] t1 IH]; simpl; [done|done|]. by rewrite IH.
Qed.

Lemma getUser_first_value h s ctx (m1 m2 : gmap string (list string)) :
  head (Metadata.get "Authorization" m1) = head (Metadata.get "Authorization" m2) ->
  (run h (getUser ctx m1) s).1 = (run h (getUser ctx m2) s).1
  /\ calls (run h (getUser ctx m1) s).2 = calls (run h (getUser ctx m2) s).2.
Proof.
  destruct (Metadata.get "Authorization" m1) as [|v r1] eqn:E1,
           (Metadata.get "Authorization" m2) as [|v' r2] eqn:E2;
    try discriminate.
  - intros _. by rewrite (getUser_no_value _ _ _ _ E1), (getUser_no_value _ _ _ _ E2).
  - intros [= <-]. destruct (startsWith v "Bearer ") eqn:F.
    + apply startsWith_inv in F as [token ->].
      rewrite (getUser_Bearer _ _ _ _ _ _ E1), (getUser_Bearer _ _ _ _ _ _ E2).
      cbv zeta. by destruct (h _ _ s) as [[found|e] s1].
    + by rewrite (getUser_not_Bearer _ _ _ _ _ _ E1 F),
                 (getUser_not_Bearer _ _ _ _ _ _ E2 F).
Qed.

(** X7: of the metadata, only the first value under [Authorization]
    matters.  Two requests for the same context whose first values agree
    (or that both have none) get the same outcome, leave the same state and
    make the same collaborator calls, whatever their other values and other
    headers; they can differ only in what is written to the console. *)
Theorem only_first_authorization_value_matters h call1 call2 s :
  head (Metadata.get "Authorization" (ServerUnaryCall.metadata call1))
  = head (Metadata.get "Authorization" (ServerUnaryCall.metadata call2)) ->
  ServerUnaryCall.request call1 = ServerUnaryCall.request call2 ->
  (run h (getWorkspaceContext call1) s).1 = (run h (getWorkspaceContext call2) s).1
  /\ calls (run h (getWorkspaceContext call1) s).2
     = calls (run h (getWorkspaceContext call2) s).2.
Proof.
  intros Hhead Hreq.
  destruct (getUser_first_value h s {| span := None |} _ _ Hhead) as [Hout Hcalls].
  unfold getWorkspaceContext. rewrite !run_bind, Hreq.
  destruct (run h (getUser _ (ServerUnaryCall.metadata call1)) s) as [[o1 s1] t1].
  destruct (run h (getUser _ (ServerUnaryCall.metadata call2)) s) as [[o2 s2] t2].
  simpl in Hout, Hcalls. injection Hout as <- <-.
  destruct o1 as [a|e]; [|done].
  match goal with
  | |- context [run h ?k s1] => destruct (run h k s1) as [[r s''] t']
  end.
  cbn. by rewrite !calls_app, Hcalls.
Qed.

(** ** The translation and later writes *)

(** X8: the environment variables of the wire specification are its own.
    After the translation, a write of anything to any object that was in the
    store before it, the starter's entries and their array included, leaves
    what the wire specification reads as its variables unchanged. *)
Theorem wire_envvars_survive_writes h s o io :
  Internal_toObject (heap s) o = Some io ->
  exists w new,
    run h (translateSpec o) s
    = (Resolved w, {| heap := heap s ++ new; world := world s |}, [])
    /\ forall l x, l < length (heap s) ->
         Wire_envvars (<[l := x]> (heap s ++ new)) w
         = Some (overwritten <$> AsObject.envvarsList io).
Proof.
  intros Hio.
  destruct (run_translateSpec h s o io Hio) as (es & _ & Hlen & Hrun & _).
  cbv zeta in Hrun. eexists _, _. split; [exact Hrun|].
  intros l x Hl. unfold Wire_envvars. cbn [Wire.envvarsList].
  rewrite insert_app_l by done.
  pose proof (readArray_new (<[l := x]> (heap s))
                ((fun e => OEnvVar (overwritten e) : Obj)
                   <$> AsObject.envvarsList io)
                (seq (length (heap s)) (length es))) as Harr.
  rewrite length_insert, length_fmap, <- Hlen in Harr. rewrite Harr. cbn.
  pose proof (mapM_readEnvVar_new (overwritten <$> AsObject.envvarsList io)
                (<[l := x]> (heap s))
                [OArray (seq (length (heap s)) (length es))]) as Hnew.
  rewrite <- list_fmap_compose, length_insert, length_fmap, <- Hlen in Hnew.
  exact Hnew.
Qed.

(** What a write of a message over a message changes in the reads. *)
Section MessageWrite.

Variables (hp : list Obj) (l : loc) (m0 m : Msg).
Hypothesis Hheld : hp !! l = Some (OMessage m0).

Lemma readEnvVar_insert_message l' :
  readEnvVar (<[l := OMessage m]> hp) l' = readEnvVar hp l'.
Proof.
  unfold readEnvVar. destruct (decide (l = l')) as [<-|Hne].
  - rewrite list_lookup_insert_eq by (by eapply lookup_lt_Some). by rewrite Hheld.
  - by rewrite list_lookup_insert_ne.
Qed.

Lemma readArray_insert_message l' :
  readArray (<[l := OMessage m]> hp) l' = readArray hp l'.
Proof.
  unfold readArray. destruct (decide (l = l')) as [<-|Hne].
  - rewrite list_lookup_insert_eq by (by eapply lookup_lt_Some). by rewrite Hheld.
  - by rewrite list_lookup_insert_ne.
Qed.

Lemma readMessage_insert_message_eq :
  readMessage (<[l := OMessage m]> hp) l = Some m.
Proof.
  unfold readMessage.
  by rewrite list_lookup_insert_eq by (by eapply lookup_lt_Some).
Qed.

Lemma readMessage_insert_message l' :
  is_Some (readMessage hp l') ->
  is_Some (readMessage (<[l := OMessage m]> hp) l').
Proof.
  destruct (decide (l = l')) as [<-|Hne].
  - intros _. by rewrite readMessage_insert_message_eq.
  - unfold readMessage. by rewrite list_lookup_insert_ne.
Qed.

Lemma readOptional_insert_message f :
  is_Some (readOptional hp f) ->
  is_Some (readOptional (<[l := OMessage m]> hp) f).
Proof.
  destruct f as [l'|]; [|done]. simpl. intros [g Hg].
  destruct (readMessage hp l') as [a|] eqn:E; [|discriminate].
  destruct (readMessage_insert_message l') as [a' ->]; [by rewrite E|]. done.
Qed.

Lemma mapM_readMessage_insert_message ls :
  is_Some (mapM (readMessage hp) ls) ->
  is_Some (mapM (readMessage (<[l := OMessage m]> hp)) ls).
Proof.
  rewrite !mapM_is_Some. intros H. eapply Forall_impl; [exact H|].
  intros l'. apply readMessage_insert_message.
Qed.

Lemma mapM_readEnvVar_insert_message ls :
  mapM (readEnvVar (<[l := OMessage m]> hp)) ls = mapM (readEnvVar hp) ls.
Proof. apply mapM_ext, readEnvVar_insert_message. Qed.

(** One read of a [toObject()], before and after the write. *)
Ltac read_after_write H :=
  match type of H with
  | (readArray hp ?a ≫= _) = _ =>
      rewrite (readArray_insert_message a);
      destruct (readArray hp a); [|discriminate H]
  | (mapM (readEnvVar hp) ?ls ≫= _) = _ =>
      rewrite (mapM_readEnvVar_insert_message ls);
      destruct (mapM (readEnvVar hp) ls); [|discriminate H]
  | ((Some <$> readMessage hp l) ≫= _) = _ =>
      rewrite readMessage_insert_message_eq;
      destruct (readMessage hp l); [|discriminate H]
  | (readOptional hp ?f ≫= _) = _ =>
      let x := fresh "x" in
      destruct (readOptional_insert_message f) as [x ->];
      [destruct (readOptional hp f); [by eexists|discriminate H]|];
      destruct (readOptional hp f); [|discriminate H]
  | (mapM (readMessage hp) ?ls ≫= _) = _ =>
      let x := fresh "x" in
      destruct (mapM_readMessage_insert_message ls) as [x ->];
      [destruct (mapM (readMessage hp) ls); [by eexists|discriminate H]|];
      destruct (mapM (readMessage hp) ls); [|discriminate H]
  end; cbn in H |- *.

Lemma Internal_toObject_insert_message o io :
  Internal_toObject hp o = Some io -> Internal.git o = Some l ->
  exists io',
    Internal_toObject (<[l := OMessage m]> hp) o = Some io'
    /\ AsObject.git io' = Some m
    /\ AsObject.envvarsList io' = AsObject.envvarsList io.
Proof.
  unfold Internal_toObject. intros H Hgit. rewrite Hgit in H |- *.
  do 6 read_after_write H. injection H as <-.
  eexists. split; [reflexivity|]. by split.
Qed.

Lemma Wire_toObject_insert_message w wo :
  Wire_toObject hp w = Some wo -> Wire.git w = Some l ->
  exists wo',
    Wire_toObject (<[l := OMessage m]> hp) w = Some wo'
    /\ AsObject.git wo' = Some m
    /\ AsObject.envvarsList wo' = AsObject.envvarsList wo.
Proof.
  unfold Wire_toObject. intros H Hgit. rewrite Hgit in H |- *.
  do 6 read_after_write H. injection H as <-.
  eexists. split; [reflexivity|]. by split.
Qed.

End MessageWrite.

(** X9: the source-control object is one object for both specifications.
    After the translation of a specification that has one, any content
    written to it is what both the starter's and the wire specification then
    read as their source-control info, while the wire one's environment
    variables stay as translated. *)
Theorem write_to_git_is_read_through_both h s o io l :
  Internal_toObject (heap s) o = Some io ->
  Internal.git o = Some l ->
  exists w new,
    run h (translateSpec o) s
    = (Resolved w, {| heap := heap s ++ new; world := world s |}, [])
    /\ forall m, exists io' wo',
         Internal_toObject (<[l := OMessage m]> (heap s ++ new)) o = Some io'
         /\ Wire_toObject (<[l := OMessage m]> (heap s ++ new)) w = Some wo'
         /\ AsObject.git io' = Some m
         /\ AsObject.git wo' = Some m
         /\ AsObject.envvarsList wo' = overwritten <$> AsObject.envvarsList io.
Proof.
  intros Hio Hgit.
  destruct (run_translateSpec h s o io Hio) as (es & _ & _ & Hrun & Hread).
  cbv zeta in Hrun, Hread. eexists _, _. split; [exact Hrun|]. intros m.
  assert (exists m0, heap s !! l = Some (OMessage m0)) as [m0 Hheld].
  { unfold Internal_toObject in Hio. rewrite Hgit in Hio.
    destruct (readArray (heap s) (Internal.envvarsList o)) as [es'|];
      [|discriminate Hio]. cbn in Hio.
    destruct (mapM (readEnvVar (heap s)) es'); [|discriminate Hio]. cbn in Hio.
    unfold readMessage in Hio.
    destruct (heap s !! l) as [[m0| |]|]; try discriminate Hio. by exists m0. }
  set (hp' := heap s ++ _) in *.
  assert (hp' !! l = Some (OMessage m0)) as Hheld'
    by (by apply lookup_app_l_Some).
  destruct (Internal_toObject_insert_message hp' l m0 m Hheld' o io)
    as (io' & Hio' & Hg & _); [by apply Internal_toObject_app|done|].
  destruct (Wire_toObject_insert_message hp' l m0 m Hheld' _ _ Hread)
    as (wo' & Hwo' & Hg' & Hvars); [done|].
  by exists io', wo'.
Qed.

(** ** The registered method *)


(** ** The console *)

(** X11: a call writes to the console at most once, and only the list of
    [Authorization] values: that line when the list is not empty, nothing
    when it is.  The orchestration and the translation write nothing:
    neither the digest, the user, the context URL nor the response. *)
Theorem console_output_of_a_call h call s :
  logged (run h (getWorkspaceContext call) s).2
  = match Metadata.get "Authorization" (ServerUnaryCall.metadata call) with
    | [] => []
    | v :: rest => [ {| auth := v :: rest |} ]
    end.
Proof.
  destruct (run h (getWorkspaceContext call) s) as [[out s'] t] eqn:Hrun.
  revert Hrun.
  credential_cases h call s; collaborator_answers h; translation_outcome h;
    by intros [= <- <- <-].
Qed.

End Properties.

(** * The scenario, checked *)

(** The constants of SHA-256 against the standard's table, and the
    digest against its test vectors. *)
Example K_first_last :
  length SHA256.K = 64
  /\ head SHA256.K = Some 0x428a2f98%Z /\ last SHA256.K = Some 0xc67178f2%Z.
Proof. vm_compute. auto. Qed.

Example H0_first_last :
  length SHA256.H0 = 8
  /\ head SHA256.H0 = Some 0x6a09e667%Z /\ last SHA256.H0 = Some 0x5be0cd19%Z.
Proof. vm_compute. auto. Qed.

Example digest_two_blocks :
  SHA256.hex "abcdbcdecdefdefgefghfghighijhijkijkljklmklmnlmnomnopnopq"
  = "248d6a61d20638b8e5c026930c3e6039a33ce45964ff2167f6ecedd419db06c1".
Proof. vm_compute. reflexivity. Qed.

(** The key under which the metadata is asked for the credential. *)
Example folded_key : Metadata.normalizeKey "Authorization" = "authorization".
Proof. reflexivity. Qed.

(** The digest of the scenario's token. *)
Example digest_abc :
  SHA256.hex "abc"
  = "ba7816bf8f01cfea414140de5dae2223b00361a396177a9cb410ff61f20015ad".
Proof. vm_compute. reflexivity. Qed.

(** The expected response of the end-to-end scenario, and what its
    specification reads as: the one variable, with its mode overwritten. *)
Example scenario_response : Scenario.success.1.1 = Resolved Scenario.response.
Proof. vm_compute. reflexivity. Qed.

Example scenario_wire_object :
  Wire_toObject (heap Scenario.success.1.2)
    (GetWorkspaceContextResponse.spec Scenario.response)
  = Some (expected_wire_object Scenario.original_object)
  /\ AsObject.envvarsList (expected_wire_object Scenario.original_object)
     = [ {| EnvironmentVariable.name := "FOO";
            EnvironmentVariable.value := "bar";
            EnvironmentVariable.mode := OVERWRITE |} ].
Proof. split; vm_compute; reflexivity. Qed.

(** The request of the scenario: its header ends on the console. *)
Lemma getUser_logs_raw_authorization_witness :
  logged (run Scenario.handler
            (getUser Scenario.ctx (Scenario.metadata ["Bearer abc"]))
            Scenario.s0).2
  = [ {| auth := ["Bearer abc"] |} ].
Proof.
  apply (getUser_logs_raw_authorization Scenario.handler Scenario.s0
           Scenario.ctx (Scenario.metadata ["Bearer abc"]) "Bearer abc" []).
  vm_compute. reflexivity.
Defined.

(** The scenario's response, whose workspace and instance ids differ. *)
Lemma response_identifies_workspace_and_instance_witness :
  exists ctx user context url workspace instance,
    In (Called (workspaceFactory_createForContext ctx user context url)
          (Resolved workspace)) Scenario.success.2
    /\ In (Called (workspaceStarter_newInstance workspace user)
             (Resolved instance)) Scenario.success.2
    /\ GetWorkspaceContextResponse.servicePrefix Scenario.response
       = Workspace.id workspace
    /\ WorkspaceMetadata.metaId
         (GetWorkspaceContextResponse.metadata Scenario.response)
       = Workspace.id workspace
    /\ WorkspaceMetadata.owner
         (GetWorkspaceContextResponse.metadata Scenario.response)
       = Workspace.ownerId workspace
    /\ GetWorkspaceContextResponse.id Scenario.response
       = WorkspaceInstance.id instance.
Proof.
  apply (response_identifies_workspace_and_instance Scenario.handler
           (Scenario.call ["Bearer abc"] "https://example.com/repo")
           Scenario.s0 Scenario.response Scenario.success.1.2).
  vm_compute. reflexivity.
Defined.

(** The scenario's specification, with its one variable of mode [APPEND]. *)
Lemma translation_overwrites_every_mode_witness :
  exists w s' wo,
    run Scenario.handler (translateSpec Scenario.originalspec) Scenario.s1
    = (Resolved w, s', [])
    /\ Wire_toObject (heap s') w = Some wo
    /\ Forall (fun e => EnvironmentVariable.mode e = OVERWRITE)
         (AsObject.envvarsList wo)
    /\ EnvironmentVariable.name <$> AsObject.envvarsList wo
       = EnvironmentVariable.name <$> AsObject.envvarsList Scenario.original_object
    /\ EnvironmentVariable.value <$> AsObject.envvarsList wo
       = EnvironmentVariable.value <$> AsObject.envvarsList Scenario.original_object.
Proof.
  apply (translation_overwrites_every_mode Scenario.handler Scenario.s1
           Scenario.originalspec Scenario.original_object).
  vm_compute. reflexivity.
Defined.

(** A first value that is not a bearer token, before one that is; an
    empty list of values; and no entry. *)
Lemma missing_or_malformed_authorization_witness :
  (exists t,
     run Scenario.handler
       (getWorkspaceContext
          (Scenario.call ["Basic abc"; "Bearer abc"] "https://example.com/repo"))
       Scenario.s0
     = (Rejected (StatusObject Status.UNAUTHENTICATED), Scenario.s0, t)
     /\ invoked t = []
     /\ server_getWorkspaceContext Scenario.handler
          (Scenario.call ["Basic abc"; "Bearer abc"] "https://example.com/repo")
          Scenario.s0
        = Rejected (StatusObject Status.UNAUTHENTICATED))
  /\ (exists t,
        run Scenario.handler
          (getWorkspaceContext (Scenario.call [] "https://example.com/repo"))
          Scenario.s0
        = (Rejected (StatusObject Status.UNAUTHENTICATED), Scenario.s0, t)
        /\ invoked t = []
        /\ server_getWorkspaceContext Scenario.handler
             (Scenario.call [] "https://example.com/repo") Scenario.s0
           = Rejected (StatusObject Status.UNAUTHENTICATED))
  /\ (exists t,
        run Scenario.handler
          (getWorkspaceContext Scenario.call_without_metadata) Scenario.s0
        = (Rejected (StatusObject Status.UNAUTHENTICATED), Scenario.s0, t)
        /\ invoked t = []
        /\ server_getWorkspaceContext Scenario.handler
             Scenario.call_without_metadata Scenario.s0
           = Rejected (StatusObject Status.UNAUTHENTICATED)).
Proof.
  split; [|split].
  - apply (missing_or_malformed_authorization_is_unauthenticated
             Scenario.handler
             (Scenario.call ["Basic abc"; "Bearer abc"] "https://example.com/repo")
             Scenario.s0).
    right. right. exists "Basic abc", ["Bearer abc"].
    split; vm_compute; reflexivity.
  - apply (missing_or_malformed_authorization_is_unauthenticated
             Scenario.handler (Scenario.call [] "https://example.com/repo")
             Scenario.s0).
    right. left. vm_compute. reflexivity.
  - apply (missing_or_malformed_authorization_is_unauthenticated
             Scenario.handler Scenario.call_without_metadata Scenario.s0).
    left. vm_compute. reflexivity.
Defined.

(** The token ["abc"] resolves to the owner of its credential, [U1]. *)
Lemma getUser_returns_owner_of_digest_witness :
  run Scenario.handler (getUser Scenario.ctx (Scenario.metadata ["Bearer abc"]))
      Scenario.s0
  = (Resolved (Some Scenario.U1), Scenario.s0,
     [ Logged {| auth := ["Bearer abc"] |};
       Called (userDB_findUserByGitpodToken Scenario.ctx (SHA256.hex "abc")
                 MACHINE_AUTH_TOKEN)
         (Resolved (Some (Scenario.credential "abc" Scenario.U1))) ]).
Proof.
  apply (getUser_returns_owner_of_digest Scenario.handler Scenario.s0
           Scenario.ctx (Scenario.metadata ["Bearer abc"]) "abc" []
           (Some (Scenario.credential "abc" Scenario.U1)) Scenario.s0).
  - vm_compute. reflexivity.
  - vm_compute. reflexivity.
Defined.

(** A token nobody owns, and a store that cannot be reached. *)
Lemma lookup_failure_is_terminal_witness :
  run Scenario.handler
    (getWorkspaceContext (Scenario.call ["Bearer nobody"] "https://example.com/repo"))
    Scenario.s0
  = (Rejected (StatusObject Status.UNAUTHENTICATED), Scenario.s0,
     [ Logged {| auth := ["Bearer nobody"] |};
       Called (userDB_findUserByGitpodToken Scenario.ctx (SHA256.hex "nobody")
                 MACHINE_AUTH_TOKEN) (Resolved None) ])
  /\ run Scenario.handler
       (getWorkspaceContext (Scenario.call ["Bearer abc"] "https://example.com/repo"))
       Scenario.s_unreachable
     = (Rejected (Upstream "credential store unreachable"), Scenario.s_unreachable,
        [ Logged {| auth := ["Bearer abc"] |};
          Called (userDB_findUserByGitpodToken Scenario.ctx (SHA256.hex "abc")
                    MACHINE_AUTH_TOKEN)
            (Rejected (Upstream "credential store unreachable")) ]).
Proof.
  split.
  - apply (lookup_failure_is_terminal Scenario.handler
             (Scenario.call ["Bearer nobody"] "https://example.com/repo")
             Scenario.s0 "nobody" []);
      vm_compute; reflexivity.
  - apply (lookup_failure_is_terminal Scenario.handler
             (Scenario.call ["Bearer abc"] "https://example.com/repo")
             Scenario.s_unreachable "abc" []);
      vm_compute; reflexivity.
Defined.

(** C6, as stated, fails where the lookup is rejected: the caller then
    receives the store's error, not the status [UNAUTHENTICATED], and the
    resolver does not return "unresolved". *)
Lemma rejected_lookup_is_not_unauthenticated :
  Exists (rejected_with FindUserByGitpodToken
            (Upstream "credential store unreachable"))
    Scenario.store_unreachable.2
  /\ server_getWorkspaceContext Scenario.handler
       (Scenario.call ["Bearer abc"] "https://example.com/repo")
       Scenario.s_unreachable
     = Rejected (Upstream "credential store unreachable")
  /\ server_getWorkspaceContext Scenario.handler
       (Scenario.call ["Bearer abc"] "https://example.com/repo")
       Scenario.s_unreachable
     <> Rejected (StatusObject Status.UNAUTHENTICATED)
  /\ (run Scenario.handler
        (getUser Scenario.ctx (Scenario.metadata ["Bearer abc"]))
        Scenario.s_unreachable).1.1
     <> Resolved None.
Proof.
  split; [|split; [|split]].
  - vm_compute. apply Exists_cons_tl, Exists_cons_hd. split; reflexivity.
  - vm_compute. reflexivity.
  - vm_compute. discriminate.
  - vm_compute. discriminate.
Qed.

(** A context the resolver rejects, and the successful run. *)
Lemma orchestration_is_ordered_and_aborts_witness :
  Scenario.unknown_context.1.1 = Rejected (Upstream "unknown context")
  /\ invoked Scenario.unknown_context.2
     = [FindUserByGitpodToken; NormalizeContextURL; Handle]
  /\ invoked Scenario.success.2 = orchestration.
Proof.
  destruct (orchestration_is_ordered_and_aborts Scenario.handler
              (Scenario.call ["Bearer abc"] "https://example.com/other")
              Scenario.s0 Scenario.unknown_context.1.1
              Scenario.unknown_context.1.2 Scenario.unknown_context.2)
    as (_ & _ & _ & Haborts); [vm_compute; reflexivity|].
  destruct (orchestration_is_ordered_and_aborts Scenario.handler
              (Scenario.call ["Bearer abc"] "https://example.com/repo")
              Scenario.s0 Scenario.success.1.1
              Scenario.success.1.2 Scenario.success.2)
    as (_ & Hall & _); [vm_compute; reflexivity|].
  split; [|split].
  - apply Haborts. vm_compute.
    do 3 apply Exists_cons_tl. apply Exists_cons_hd. split; reflexivity.
  - apply (Haborts (Upstream "unknown context")). vm_compute.
    do 3 apply Exists_cons_tl. apply Exists_cons_hd. split; reflexivity.
  - apply (Hall Scenario.response). vm_compute. reflexivity.
Defined.

(** The scenario's specification: the values read, and the references held. *)
Lemma translation_copies_values_and_passes_references_witness :
  exists w new wo,
    run Scenario.handler (translateSpec Scenario.originalspec) Scenario.s1
    = (Resolved w,
       {| heap := heap Scenario.s1 ++ new; world := world Scenario.s1 |}, [])
    /\ Internal_toObject (heap Scenario.s1 ++ new) Scenario.originalspec
       = Some Scenario.original_object
    /\ Wire_toObject (heap Scenario.s1 ++ new) w = Some wo
    /\ AsObject.admission wo = 0%Z
    /\ AsObject.checkoutLocation wo = "repo"
    /\ AsObject.git wo = Some "git: U1 <u1@example.com>"
    /\ AsObject.ideImage wo = "ide:latest"
    /\ AsObject.initializer wo
       = Some "initializer: clone https://example.com/repo"
    /\ AsObject.portsList wo = ["port 3000"]
    /\ AsObject.timeout wo = "30m"
    /\ AsObject.workspaceImage wo = "workspace-full"
    /\ AsObject.workspaceLocation wo = "repo"
    /\ Wire.git w = Some 2
    /\ Wire.initializer w = Some 5
    /\ Wire.portsList w = 4
    /\ (forall l, In l (Wire_envvar_refs (heap Scenario.s1 ++ new) w) ->
          ~ In l (Internal_refs (heap Scenario.s1 ++ new) Scenario.originalspec)).
Proof.
  apply (translation_copies_values_and_passes_references Scenario.handler
           Scenario.s1 Scenario.originalspec Scenario.original_object).
  vm_compute. reflexivity.
Defined.

(** C8, as stated, fails on the objects passed by reference: after the
    translation the two specifications hold the same source-control object
    (and initializer, and port list), so that a write to it through the
    starter's specification is read through the wire one. *)
Lemma translation_shares_message_objects :
  exists w s',
    run Scenario.handler (translateSpec Scenario.originalspec) Scenario.s1
    = (Resolved w, s', [])
    /\ ~ share_nothing (heap s') Scenario.originalspec w
    /\ Internal.git Scenario.originalspec = Some 2
    /\ AsObject.git
       <$> Wire_toObject (<[2 := OMessage "git: someone else"]> (heap s')) w
       = Some (Some "git: someone else").
Proof.
  eexists _, _. split; [vm_compute; reflexivity|].
  split; [|split; vm_compute; reflexivity].
  intros Hnothing. apply (Hnothing 2); vm_compute; intuition.
Qed.

(** The scenario's specification translated twice. *)
Lemma translation_twice_reads_equal_witness :
  exists w1 s1 w2 s2 wo,
    run Scenario.handler (translateSpec Scenario.originalspec) Scenario.s1
    = (Resolved w1, s1, [])
    /\ run Scenario.handler (translateSpec Scenario.originalspec) Scenario.s1
       = (Resolved w1, s1, [])
    /\ run Scenario.handler (translateSpec Scenario.originalspec) s1
       = (Resolved w2, s2, [])
    /\ Wire_toObject (heap s2) w1 = Some wo
    /\ Wire_toObject (heap s2) w2 = Some wo.
Proof.
  apply (translation_twice_reads_equal Scenario.handler Scenario.handler
           Scenario.s1 Scenario.originalspec Scenario.original_object).
  vm_compute. reflexivity.
Defined.

(** A known bearer token in second place is not looked at; the empty token is looked up. *)
Lemma getUser_examines_first_value_only_witness :
  run Scenario.handler
    (getUser Scenario.ctx (Scenario.metadata ["Basic abc"; "Bearer abc"]))
    Scenario.s0
  = (Resolved None, Scenario.s0,
     [Logged {| auth := ["Basic abc"; "Bearer abc"] |}])
  /\ (run Scenario.handler
        (getUser Scenario.ctx (Scenario.metadata ["Bearer "])) Scenario.s_blank).1.1
     = Resolved (Some Scenario.U2).
Proof.
  split.
  - apply (getUser_examines_first_value_only Scenario.handler Scenario.s0
             Scenario.ctx (Scenario.metadata ["Basic abc"; "Bearer abc"])
             "Basic abc" ["Bearer abc"]);
      vm_compute; reflexivity.
  - assert (Metadata.get "Authorization" (Scenario.metadata ["Bearer "])
            = ["Bearer "]) as Hget by (vm_compute; reflexivity).
    destruct (getUser_examines_first_value_only Scenario.handler
                Scenario.s_blank Scenario.ctx (Scenario.metadata ["Bearer "])
                "Bearer " [] Hget) as [_ Hblank].
    destruct (Hblank eq_refl) as [_ ->]. vm_compute. reflexivity.
Defined.

(** * The further properties, on the scenario *)

(** The user of the scenario's request, traced back to its credential. *)
Lemma getUser_some_comes_from_store_witness :
  exists token rest c,
    Metadata.get "Authorization" (Scenario.metadata ["Bearer abc"])
    = ("Bearer " ++ token)%string :: rest
    /\ Scenario.handler _
         (userDB_findUserByGitpodToken Scenario.ctx (SHA256.hex token)
            MACHINE_AUTH_TOKEN) Scenario.s0
       = (Resolved (Some c), Scenario.s0)
    /\ UserAndToken.user c = Scenario.U1
    /\ (run Scenario.handler
          (getUser Scenario.ctx (Scenario.metadata ["Bearer abc"]))
          Scenario.s0).2
       = [ Logged {| auth := ("Bearer " ++ token)%string :: rest |};
           Called (userDB_findUserByGitpodToken Scenario.ctx (SHA256.hex token)
                     MACHINE_AUTH_TOKEN) (Resolved (Some c)) ].
Proof.
  apply (getUser_some_comes_from_store Scenario.handler Scenario.s0
           Scenario.ctx (Scenario.metadata ["Bearer abc"]) Scenario.U1
           Scenario.s0).
  vm_compute. reflexivity.
Defined.

(** The run whose context is unknown reached the resolver: it had found a
    credential first. *)
Lemma orchestration_only_after_credential_witness :
  exists token rest c s1 t',
    Metadata.get "Authorization" (Scenario.metadata ["Bearer abc"])
    = ("Bearer " ++ token)%string :: rest
    /\ Scenario.handler _
         (userDB_findUserByGitpodToken {| span := None |} (SHA256.hex token)
            MACHINE_AUTH_TOKEN) Scenario.s0
       = (Resolved (Some c), s1)
    /\ Scenario.unknown_context.2
       = Logged {| auth := ("Bearer " ++ token)%string :: rest |}
         :: Called (userDB_findUserByGitpodToken {| span := None |}
                      (SHA256.hex token) MACHINE_AUTH_TOKEN)
              (Resolved (Some c))
         :: t'.
Proof.
  apply (orchestration_only_after_credential Scenario.handler
           (Scenario.call ["Bearer abc"] "https://example.com/other")
           Scenario.s0 Scenario.unknown_context.1.1
           Scenario.unknown_context.1.2 Scenario.unknown_context.2 Handle).
  - vm_compute. reflexivity.
  - vm_compute. right. right. left. reflexivity.
  - discriminate.
Defined.

(** The chain of the scenario's successful call. *)
Lemma resolved_call_chain_witness :
  exists token rest c url context workspace instance envVars originalspec,
    let ctx := {| span := None |} in
    let user := UserAndToken.user c in
    Metadata.get "Authorization" (Scenario.metadata ["Bearer abc"])
    = ("Bearer " ++ token)%string :: rest
    /\ Scenario.success.2
       = [ Logged {| auth := ("Bearer " ++ token)%string :: rest |};
           Called (userDB_findUserByGitpodToken ctx (SHA256.hex token)
                     MACHINE_AUTH_TOKEN) (Resolved (Some c));
           Called (contextParser_normalizeContextURL "https://example.com/repo")
             (Resolved url);
           Called (contextParser_handle ctx user url) (Resolved context);
           Called (workspaceFactory_createForContext ctx user context url)
             (Resolved workspace);
           Called (workspaceStarter_newInstance workspace user)
             (Resolved instance);
           Called (userDB_getEnvVars ctx (User.id user)) (Resolved envVars);
           Called (workspaceStarter_createSpec ctx user workspace instance
                     envVars) (Resolved originalspec) ]
    /\ Scenario.response
       = {| GetWorkspaceContextResponse.id := WorkspaceInstance.id instance;
            GetWorkspaceContextResponse.metadata :=
              {| WorkspaceMetadata.metaId := Workspace.id workspace;
                 WorkspaceMetadata.owner := Workspace.ownerId workspace |};
            GetWorkspaceContextResponse.servicePrefix := Workspace.id workspace;
            GetWorkspaceContextResponse.spec :=
              GetWorkspaceContextResponse.spec Scenario.response |}.
Proof.
  apply (resolved_call_chain Scenario.handler
           (Scenario.call ["Bearer abc"] "https://example.com/repo")
           Scenario.s0 Scenario.response Scenario.success.1.2).
  vm_compute. reflexivity.
Defined.

(** Every step of the scenario resolves, and so does the call. *)
Lemma getWorkspaceContext_resolves_witness :
  exists resp new t,
    run Scenario.handler
      (getWorkspaceContext (Scenario.call ["Bearer abc"] "https://example.com/repo"))
      Scenario.s0
    = (Resolved resp,
       {| heap := heap Scenario.s1 ++ new; world := world Scenario.s1 |}, t)
    /\ invoked t = orchestration
    /\ GetWorkspaceContextResponse.id resp = "inst1"
    /\ GetWorkspaceContextResponse.servicePrefix resp = "ws1"
    /\ GetWorkspaceContextResponse.metadata resp
       = {| WorkspaceMetadata.metaId := "ws1"; WorkspaceMetadata.owner := "U1" |}
    /\ Wire_toObject (heap Scenario.s1 ++ new)
         (GetWorkspaceContextResponse.spec resp)
       = Some (expected_wire_object Scenario.original_object).
Proof.
  apply (getWorkspaceContext_resolves Scenario.handler
           (Scenario.call ["Bearer abc"] "https://example.com/repo")
           Scenario.s0 "abc" [] (Scenario.credential "abc" Scenario.U1)
           Scenario.s0 "https://example.com/repo" Scenario.s0 "C" Scenario.s0
           {| Workspace.id := "ws1"; Workspace.ownerId := "U1" |} Scenario.s0
           {| WorkspaceInstance.id := "inst1" |} Scenario.s0
           [("FOO", "bar")] Scenario.s0
           Scenario.originalspec Scenario.s1 Scenario.original_object);
    vm_compute; reflexivity.
Defined.

(** The one lookup of the scenario, by the digest of ["abc"]. *)
Lemma every_lookup_is_by_digest_witness :
  Forall (lookup_by_digest_of ["Bearer abc"]) Scenario.success.2.
Proof.
  apply (every_lookup_is_by_digest Scenario.handler
           (Scenario.call ["Bearer abc"] "https://example.com/repo")
           Scenario.s0 Scenario.success.1.1 Scenario.success.1.2).
  vm_compute. reflexivity.
Defined.

(** A second bearer token and another header change nothing but the
    console line. *)
Lemma only_first_authorization_value_matters_witness :
  let call1 := Scenario.call ["Bearer abc"] "https://example.com/repo" in
  let call2 :=
    {| ServerUnaryCall.metadata :=
         <["x-request-id" := ["42"]]>
           (Scenario.metadata ["Bearer abc"; "Bearer nobody"]);
       ServerUnaryCall.request :=
         {| GetWorkspaceContextRequest.contextUrl := "https://example.com/repo" |} |} in
  (run Scenario.handler (getWorkspaceContext call1) Scenario.s0).1
  = (run Scenario.handler (getWorkspaceContext call2) Scenario.s0).1
  /\ calls (run Scenario.handler (getWorkspaceContext call1) Scenario.s0).2
     = calls (run Scenario.handler (getWorkspaceContext call2) Scenario.s0).2.
Proof.
  intros call1 call2.
  apply (only_first_authorization_value_matters Scenario.handler call1 call2
           Scenario.s0).
  - vm_compute. reflexivity.
  - reflexivity.
Defined.

(** The scenario's specification: writes to the objects it came with. *)
Lemma wire_envvars_survive_writes_witness :
  exists w new,
    run Scenario.handler (translateSpec Scenario.originalspec) Scenario.s1
    = (Resolved w,
       {| heap := heap Scenario.s1 ++ new; world := world Scenario.s1 |}, [])
    /\ forall l x, l < length (heap Scenario.s1) ->
         Wire_envvars (<[l := x]> (heap Scenario.s1 ++ new)) w
         = Some (overwritten <$> AsObject.envvarsList Scenario.original_object).
Proof.
  apply (wire_envvars_survive_writes Scenario.handler Scenario.s1
           Scenario.originalspec Scenario.original_object).
  vm_compute. reflexivity.
Defined.

(** The scenario's source-control object, at reference 2. *)
Lemma write_to_git_is_read_through_both_witness :
  exists w new,
    run Scenario.handler (translateSpec Scenario.originalspec) Scenario.s1
    = (Resolved w,
       {| heap := heap Scenario.s1 ++ new; world := world Scenario.s1 |}, [])
    /\ forall m, exists io' wo',
         Internal_toObject (<[2 := OMessage m]> (heap Scenario.s1 ++ new))
           Scenario.originalspec = Some io'
         /\ Wire_toObject (<[2 := OMessage m]> (heap Scenario.s1 ++ new)) w
            = Some wo'
         /\ AsObject.git io' = Some m
         /\ AsObject.git wo' = Some m
         /\ AsObject.envvarsList wo'
            = overwritten <$> AsObject.envvarsList Scenario.original_object.
Proof.
  apply (write_to_git_is_read_through_both Scenario.handler Scenario.s1
           Scenario.originalspec Scenario.original_object 2);
    vm_compute; reflexivity.
Defined.

(** The callback of the scenario: invoked once when it takes the response,
    twice when it throws on it, once with the error of a rejected call. *)
Example callback_invocations :
  (server_getWorkspaceContext_cb Scenario.handler Scenario.cb_accepts
     (Scenario.call ["Bearer abc"] "https://example.com/repo") Scenario.s0).2
  = [cb_response Scenario.response]
  /\ (server_getWorkspaceContext_cb Scenario.handler Scenario.cb_stream_closed
        (Scenario.call ["Bearer abc"] "https://example.com/repo") Scenario.s0).2
     = [cb_response Scenario.response; cb_error (Upstream "stream closed")]
  /\ (server_getWorkspaceContext_cb Scenario.handler Scenario.cb_stream_closed
        (Scenario.call [] "https://example.com/repo") Scenario.s0).2
     = [cb_error (StatusObject Status.UNAUTHENTICATED)].
Proof. repeat split; vm_compute; reflexivity. Qed.
